(** * deep-research: the recursive research orchestrator and the prompt trimmer

    A shallow embedding of [src/ai/providers.ts] ([trimPrompt]) and of the
    orchestrator module ([generateSerpQueries], [processSerpResult],
    [deepResearch]), followed by the properties established about them.

    JavaScript strings are sequences of UTF-16 code units; numbers that the
    code uses as counts, depths and budgets are integers ([Z]).  The language
    model, the search provider, the tokenizer and the text splitter are
    collaborators of the code: they are gathered in the record [externals],
    each a function of its arguments (a call to the model or to the search
    provider is fulfilled or rejected; the tokenizer returns the tokens of a
    text or throws, as it does on a text that holds a special token; the
    splitter returns on every input), and every definition is parameterised
    by it.  The progress observer is an argument of [deepResearch], as in the
    source. *)

From Stdlib Require Import String Ascii.
From stdpp Require Import base numbers list option.

Local Open Scope Z_scope.

(** ** JavaScript strings *)

Abbreviation jsstring := (list N).

(** An ASCII literal as a JavaScript string. *)
Definition js (s : string) : jsstring :=
  N_of_ascii <$> list_ascii_of_string s.

(** [!s] for a string: only the empty string is falsy. *)
Definition falsy (s : jsstring) : bool :=
  match s with [] => true | _ :: _ => false end.

(** [s.slice(0, e)] of a string or an array, for an integer [e]; a negative
    [e] counts from the end. *)
Definition slice0 {A} (e : Z) (s : list A) : list A :=
  if e <? 0 then take (Z.to_nat (Z.max (Z.of_nat (length s) + e) 0)) s
  else take (Z.to_nat e) s.

(** WhiteSpace and LineTerminator code points, as [String.prototype.trim]
    strips them. *)
Definition is_white_space (c : N) : bool :=
  let c := Z.of_N c in
  (9 <=? c) && (c <=? 13) || (c =? 32) || (c =? 160) || (c =? 5760)
  || (8192 <=? c) && (c <=? 8202) || (c =? 8232) || (c =? 8233)
  || (c =? 8239) || (c =? 8287) || (c =? 12288) || (c =? 65279).

Fixpoint trimStart (s : jsstring) : jsstring :=
  match s with
  | c :: s' => if is_white_space c then trimStart s' else s
  | [] => []
  end.

Definition trimEnd (s : jsstring) : jsstring := reverse (trimStart (reverse s)).

Definition trim (s : jsstring) : jsstring := trimEnd (trimStart s).

(** [s.trim() !== ''] *)
Definition blank (s : jsstring) : bool := falsy (trim s).

(** [s.replace(/\n/g, ' ')] *)
Definition replace_newlines (s : jsstring) : jsstring :=
  (fun c => if (c =? 10)%N then 32%N else c) <$> s.

Fixpoint starts_with (p s : jsstring) : bool :=
  match p, s with
  | [], _ => true
  | a :: p', b :: s' => (a =? b)%N && starts_with p' s'
  | _ :: _, [] => false
  end.

(** [s.includes(p)] *)
Fixpoint includes (s p : jsstring) : bool :=
  starts_with p s || match s with [] => false | _ :: s' => includes s' p end.

(** [parts.join(sep)] *)
Fixpoint join (sep : jsstring) (parts : list jsstring) : jsstring :=
  match parts with
  | [] => []
  | [p] => p
  | p :: rest => p ++ sep ++ join sep rest
  end.

(** lodash's [compact] on an array of optional strings: [undefined] and the
    empty string are falsy and dropped. *)
Fixpoint compact_strings (l : list (option jsstring)) : list jsstring :=
  match l with
  | [] => []
  | Some (c :: s) :: l' => (c :: s) :: compact_strings l'
  | _ :: l' => compact_strings l'
  end.

(** lodash's [compact] on an array of objects-or-null. *)
Definition compact {A} (l : list (option A)) : list A := omap id l.

(** [[...new Set(xs)]]: the elements of [xs] in first-insertion order, one per
    class of [same].  For strings [same] is equality of contents; for objects
    it is identity of reference. *)
Fixpoint Set_spread_from {A} (same : A -> A -> bool) (seen xs : list A) : list A :=
  match xs with
  | [] => []
  | x :: xs' =>
      if existsb (same x) seen then Set_spread_from same seen xs'
      else x :: Set_spread_from same (x :: seen) xs'
  end.

Definition Set_spread {A} (same : A -> A -> bool) (xs : list A) : list A :=
  Set_spread_from same [] xs.

Definition same_string (a b : jsstring) : bool := bool_decide (a = b).

(** [c] is a contiguous piece of [t]. *)
Definition contiguous_in (c t : jsstring) : Prop :=
  exists before after, t = before ++ c ++ after.

(** ** Data model *)

Record SerpQuery := { sq_query : jsstring; researchGoal : jsstring }.

(** An object [{url, summary}]; [ref] is the identity of the object (two
    objects built by two evaluations of an object literal differ in it). *)
Record UrlWithSummary := { ref : nat; url : jsstring; summary : jsstring }.

Record ResearchResult := {
  learnings : list jsstring;
  visitedUrls : list UrlWithSummary
}.

Record ResearchProgress := {
  currentDepth : Z;
  totalDepth : Z;
  currentBreadth : Z;
  totalBreadth : Z;
  currentQuery : option jsstring;
  totalQueries : Z;
  completedQueries : Z
}.

Record Metadata := { title : option jsstring; description : option jsstring }.

Record SearchItem := {
  item_url : option jsstring;
  item_markdown : option jsstring;
  item_metadata : option Metadata
}.

Record SearchResponse := { data : list SearchItem }.

(** What [processSerpResult] obtains from the model. *)
Record SerpLearnings := {
  pr_learnings : list jsstring;
  followUpQuestions : list jsstring
}.

(** A thrown value, as far as the code looks at it: the handler of a branch
    reads its [message] and, when that is truthy, calls [includes] on it.
    Any value can be thrown: an object whose [message] is a string, as an
    [Error] is; a value without a [message], or with a falsy one (a string,
    a number, a plain object); an object whose [message] is truthy and has
    no [includes] (a number, say); [null]; [undefined].  A [message] that is
    not a string and has an [includes] of its own (an array) is left out. *)
Inductive exn :=
  | Error (message : jsstring)
  | No_message
  | Odd_message
  | Null
  | Undefined.

(** How a call ends: an awaited call is fulfilled or rejected, a synchronous
    one returns or throws. *)
Inductive settled (A : Type) : Type :=
  | Fulfilled (a : A)
  | Rejected (e : exn).
Arguments Fulfilled {A} a.
Arguments Rejected {A} e.

(** ** External collaborators *)

Record externals := {
  (** [process.env.CONTEXT_SIZE] read as a number, when it is one *)
  env_CONTEXT_SIZE : option Z;
  (** [encoder.encode] of js-tiktoken's [o200k_base]: the tokens of the
      text, or the error it throws (on a text that holds a special token
      such as [<|endoftext|>]) *)
  encode : jsstring -> settled (list N);
  (** [new RecursiveCharacterTextSplitter({chunkSize, chunkOverlap: 0}).splitText] *)
  splitText : Z -> jsstring -> list jsstring;
  (** [generateObject] of [generateSerpQueries], as a function of what its
      prompt interpolates: the query, the learnings and the number asked for *)
  generate_queries : jsstring -> list jsstring -> Z -> settled (list SerpQuery);
  (** [firecrawl.search] with its fixed options *)
  firecrawl_search : jsstring -> settled SearchResponse;
  (** [generateObject] of the per-result summary, on the trimmed markdown *)
  generate_summary : jsstring -> settled jsstring;
  (** [generateObject] of [processSerpResult]: query, trimmed contents,
      numbers of learnings and of follow-up questions asked for *)
  generate_learnings :
    jsstring -> list jsstring -> Z -> Z -> settled SerpLearnings
}.

(** ** [trimPrompt] (src/ai/providers.ts) *)

Definition MinChunkSize : Z := 140.

(** [Number(process.env.CONTEXT_SIZE) || 128_000] *)
Definition defaultContextSize (E : externals) : Z :=
  match env_CONTEXT_SIZE E with
  | Some n => if n =? 0 then 128000 else n
  | None => 128000
  end.

(** The recursion of [trimPrompt] is on the text it produced; [fuel] bounds
    the number of nested calls and [None] means the bound was reached.  A
    call returns a text or throws what the tokenizer throws. *)
Fixpoint trimPrompt_fuel (E : externals) (fuel : nat)
    (prompt : jsstring) (contextSize : Z) : option (settled jsstring) :=
  match fuel with
  | O => None
  | S fuel' =>
      if falsy prompt then Some (Fulfilled [])
      else
        match encode E prompt with
        | Rejected e => Some (Rejected e)
        | Fulfilled tokens =>
            let length_ := Z.of_nat (length tokens) in
            if length_ <=? contextSize then Some (Fulfilled prompt)
            else
              let overflowTokens := length_ - contextSize in
              let chunkSize := Z.of_nat (length prompt) - overflowTokens * 3 in
              if chunkSize <? MinChunkSize
              then Some (Fulfilled (slice0 MinChunkSize prompt))
              else
                let trimmedPrompt :=
                  default [] (head (splitText E chunkSize prompt)) in
                if (length trimmedPrompt =? length prompt)%nat
                then trimPrompt_fuel E fuel' (slice0 chunkSize prompt) contextSize
                else trimPrompt_fuel E fuel' trimmedPrompt contextSize
        end
  end.

(** [trimPrompt] with the fuel that suffices whenever the splitter's first
    chunk is no longer than its input (see [trimPrompt_fuel_enough]). *)
Definition trimPrompt (E : externals) (prompt : jsstring) (contextSize : Z)
    : option (settled jsstring) :=
  trimPrompt_fuel E (S (length prompt)) prompt contextSize.

(** [prompt.length - overflowTokens * 3] for a text of [tokens] tokens *)
Definition chunkSize_of (prompt : jsstring) (tokens : list N) (contextSize : Z) : Z :=
  Z.of_nat (length prompt) - (Z.of_nat (length tokens) - contextSize) * 3.

(** The text a call of [trimPrompt] passes to its recursive call, when it
    makes one. *)
Definition trimPrompt_next (E : externals) (prompt : jsstring) (contextSize : Z)
    : option jsstring :=
  if falsy prompt then None
  else
    match encode E prompt with
    | Rejected _ => None
    | Fulfilled tokens =>
        let chunkSize := chunkSize_of prompt tokens contextSize in
        let trimmedPrompt := default [] (head (splitText E chunkSize prompt)) in
        if (Z.of_nat (length tokens) <=? contextSize) || (chunkSize <? MinChunkSize)
        then None
        else if (length trimmedPrompt =? length prompt)%nat
             then Some (slice0 chunkSize prompt)
             else Some trimmedPrompt
    end.

(** How a call of [trimPrompt] ends when it makes no recursive call. *)
Definition trimPrompt_base (E : externals) (prompt : jsstring) (contextSize : Z)
    : settled jsstring :=
  if falsy prompt then Fulfilled []
  else
    match encode E prompt with
    | Rejected e => Rejected e
    | Fulfilled tokens =>
        if Z.of_nat (length tokens) <=? contextSize then Fulfilled prompt
        else Fulfilled (slice0 MinChunkSize prompt)
    end.

(** The tokens of [t], when the tokenizer accepts it. *)
Definition encode_tokens (E : externals) (t : jsstring) : option (list N) :=
  match encode E t with
  | Fulfilled tokens => Some tokens
  | Rejected _ => None
  end.

(** The token count of [t] is within [budget]: the tokenizer accepts [t] and
    gives it at most [budget] tokens. *)
Definition within_budget (E : externals) (t : jsstring) (budget : Z) : Prop :=
  exists tokens, encode E t = Fulfilled tokens /\ Z.of_nat (length tokens) <= budget.

(** A tokenizer that accepts a text accepts every piece the text starts
    with: so does one that throws on the texts that hold a special token. *)
Definition accepts_prefixes (E : externals) : Prop :=
  forall t n tokens,
    encode E t = Fulfilled tokens ->
    exists tokens', encode E (take n t) = Fulfilled tokens'.

(** How the call of [trimPrompt] that makes no recursive call ends on the
    text [at_hand] it was given: an empty text is returned as it is, without
    being counted; what the tokenizer throws is thrown; a text within the
    budget is returned as it is; a text over budget whose estimated chunk
    size is below [MinChunkSize] is cut to its first [MinChunkSize] code
    units. *)
Inductive ends_at (E : externals) (contextSize : Z) (at_hand : jsstring)
    : settled jsstring -> Prop :=
  | ends_empty :
      at_hand = [] -> ends_at E contextSize at_hand (Fulfilled [])
  | ends_throwing e :
      at_hand <> [] -> encode E at_hand = Rejected e ->
      ends_at E contextSize at_hand (Rejected e)
  | ends_fitting tokens :
      at_hand <> [] -> encode E at_hand = Fulfilled tokens ->
      Z.of_nat (length tokens) <= contextSize ->
      ends_at E contextSize at_hand (Fulfilled at_hand)
  | ends_at_floor tokens :
      at_hand <> [] -> encode E at_hand = Fulfilled tokens ->
      contextSize < Z.of_nat (length tokens) ->
      chunkSize_of at_hand tokens contextSize < MinChunkSize ->
      ends_at E contextSize at_hand (Fulfilled (slice0 MinChunkSize at_hand)).

(** Modelled from the spec: [./text-splitter], the module of
    [RecursiveCharacterTextSplitter], is not among the sources.  The spec has
    the text split "into structural chunks [...] sized to the computed
    character budget", of which the first is taken; what is used of it is that
    this first chunk is never longer than the text that was split. *)
Definition splitter_no_growth (E : externals) : Prop :=
  forall chunkSize t,
    (length (default [] (head (splitText E chunkSize t))) <= length t)%nat.

(** Modelled from the spec: [./text-splitter] is not among the sources.  The
    spec has the trimmed text "a prefix-like contiguous reduction" of the
    text, obtained by splitting it into chunks "and take the first chunk":
    the first chunk of a text is a piece the text starts with. *)
Definition splitter_prefix (E : externals) : Prop :=
  forall chunkSize t,
    default [] (head (splitText E chunkSize t)) `prefix_of` t.

(** ** Effects of the orchestrator

    The orchestrator calls its collaborators, writes to the log, allocates
    objects and mutates progress objects; any call may throw.  A computation
    is a function of the [state]; it returns a value, throws, or (when the
    fuel of a recursion is exhausted) does neither. *)

Inductive log_entry :=
  | LogCreatedQueries (queries : list SerpQuery)
  | LogRan (query : jsstring) (found : nat)
  | LogCreatedLearnings (created : list jsstring)
  | LogSummaryAttempt (of_url : jsstring)
  | LogSummaryDone (generated : jsstring)
  | LogSummaryFailed (of_url : jsstring) (e : exn)
  | LogDeeper (breadth depth : Z)
  | LogTimeout (query : jsstring) (e : exn)
  | LogError (query : jsstring) (e : exn).

Inductive event :=
  | CallGenerateQueries (query : jsstring) (known : list jsstring) (numQueries : Z)
  | CallSearch (query : jsstring)
  | CallGenerateSummary (content : jsstring)
  | CallGenerateLearnings (query : jsstring) (contents : list jsstring)
      (numLearnings numFollowUpQuestions : Z)
  | CallOnProgress (progress : nat) (snapshot : ResearchProgress)
  | Log (entry : log_entry).

(** [next_ref] is the identity the next [{url, summary}] object gets;
    [progresses] holds the progress objects, an object's reference being its
    index; [events] lists the calls made and the log lines written, oldest
    first.  The per-result tasks of one search run concurrently in the source
    and their events are listed task by task here: the interleaving of tasks
    is not modelled, the calls each task makes and the values it produces
    are. *)
Record state := {
  next_ref : nat;
  progresses : list ResearchProgress;
  events : list event
}.

Inductive outcome (A : Type) : Type :=
  | Return (a : A)
  | Throw (e : exn)
  | Diverge.
Arguments Return {A} a.
Arguments Throw {A} e.
Arguments Diverge {A}.

Definition M (A : Type) : Type := state -> outcome A * state.

Definition ret {A} (a : A) : M A := fun s => (Return a, s).

Definition bind {A B} (m : M A) (k : A -> M B) : M B :=
  fun s =>
    match m s with
    | (Return a, s') => k a s'
    | (Throw e, s') => (Throw e, s')
    | (Diverge, s') => (Diverge, s')
    end.

Definition throw {A} (e : exn) : M A := fun s => (Throw e, s).

Definition diverge {A} : M A := fun s => (Diverge, s).

(** [try { body } catch (e) { handler }] *)
Definition try_catch {A} (body : M A) (handler : exn -> M A) : M A :=
  fun s =>
    match body s with
    | (Throw e, s') => handler e s'
    | r => r
    end.

Declare Scope js_scope.
Delimit Scope js_scope with js.
Notation "'do' x <- m ; k" := (bind m (fun x => k))
  (at level 10, x name, m at level 100, k at level 200) : js_scope.
Notation "m ;; k" := (bind m (fun _ => k))
  (at level 100, k at level 200, right associativity) : js_scope.
Local Open Scope js_scope.

Fixpoint mapM {A B} (f : A -> M B) (l : list A) : M (list B) :=
  match l with
  | [] => ret []
  | x :: l' => do y <- f x; do ys <- mapM f l'; ret (y :: ys)
  end.

Definition emit (ev : event) : M unit :=
  fun s => (Return tt,
            {| next_ref := next_ref s; progresses := progresses s;
               events := events s ++ [ev] |}).

Definition log (entry : log_entry) : M unit := emit (Log entry).

(** An awaited external call: the call is recorded, then it settles. *)
Definition await_call {A} (ev : event) (r : settled A) : M A :=
  emit ev;;
  match r with
  | Fulfilled a => ret a
  | Rejected e => throw e
  end.

(** A synchronous call: it returns or throws. *)
Definition sync {A} (r : settled A) : M A :=
  match r with
  | Fulfilled a => ret a
  | Rejected e => throw e
  end.

(** A synchronous computation that may fail to terminate. *)
Definition run_sync {A} (r : option (settled A)) : M A :=
  match r with
  | Some r => sync r
  | None => diverge
  end.

(** The identity of a newly built [{url, summary}] object. *)
Definition fresh_ref : M nat :=
  fun s => (Return (next_ref s),
            {| next_ref := S (next_ref s); progresses := progresses s;
               events := events s |}).

#[global] Instance ResearchProgress_inhabited : Inhabited ResearchProgress :=
  populate {| currentDepth := 0; totalDepth := 0; currentBreadth := 0;
              totalBreadth := 0; currentQuery := None; totalQueries := 0;
              completedQueries := 0 |}.

(** A new progress object; the result is its reference. *)
Definition new_progress (p : ResearchProgress) : M nat :=
  fun s => (Return (length (progresses s)),
            {| next_ref := next_ref s; progresses := progresses s ++ [p];
               events := events s |}).

Definition read_progress (progress : nat) : M ResearchProgress :=
  fun s => (Return (progresses s !!! progress), s).

Definition update_progress (progress : nat)
    (f : ResearchProgress -> ResearchProgress) : M unit :=
  fun s => (Return tt,
            {| next_ref := next_ref s;
               progresses := alter f progress (progresses s);
               events := events s |}).

(** ** The orchestrator *)

Definition ConcurrencyLimit : Z := 1.

(** [generateSerpQueries({query, numQueries, learnings})] *)
Definition generateSerpQueries (E : externals) (query : jsstring)
    (numQueries : Z) (known : list jsstring) : M (list SerpQuery) :=
  do res <- await_call (CallGenerateQueries query known numQueries)
              (generate_queries E query known numQueries);
  log (LogCreatedQueries res);;
  ret (slice0 numQueries res).

(** [processSerpResult({query, result, numLearnings, numFollowUpQuestions})] *)
Definition processSerpResult (E : externals) (query : jsstring)
    (result : SearchResponse) (numLearnings numFollowUpQuestions : Z)
    : M SerpLearnings :=
  do contents <- mapM (fun content => run_sync (trimPrompt E content 25000))
                   (compact_strings (item_markdown <$> data result));
  log (LogRan query (length contents));;
  do res <- await_call
              (CallGenerateLearnings query contents numLearnings numFollowUpQuestions)
              (generate_learnings E query contents numLearnings numFollowUpQuestions);
  log (LogCreatedLearnings (pr_learnings res));;
  ret res.

(** The argument of [reportProgress]: a [Partial<ResearchProgress>], each
    field present or not.  [currentQuery] may be present with the value
    [undefined]. *)
Record ProgressUpdate := {
  set_currentDepth : option Z;
  set_currentBreadth : option Z;
  set_currentQuery : option (option jsstring);
  set_totalQueries : option Z;
  set_completedQueries : option Z
}.

(** [Object.assign(progress, update)] *)
Definition Object_assign (p : ResearchProgress) (u : ProgressUpdate)
    : ResearchProgress :=
  {| currentDepth := default (currentDepth p) (set_currentDepth u);
     totalDepth := totalDepth p;
     currentBreadth := default (currentBreadth p) (set_currentBreadth u);
     totalBreadth := totalBreadth p;
     currentQuery := default (currentQuery p) (set_currentQuery u);
     totalQueries := default (totalQueries p) (set_totalQueries u);
     completedQueries := default (completedQueries p) (set_completedQueries u) |}.

(** The progress observer: called with the progress object, it returns or
    throws. *)
Definition observer : Type := ResearchProgress -> settled unit.

(** [reportProgress(update)], a closure over the invocation's [progress]
    object and its [onProgress]: merge, then notify. *)
Definition reportProgress (progress : nat) (onProgress : option observer)
    (update : ProgressUpdate) : M unit :=
  update_progress progress (fun p => Object_assign p update);;
  match onProgress with
  | None => ret tt
  | Some notify =>
      do p <- read_progress progress;
      await_call (CallOnProgress progress p) (notify p)
  end.

(** [item.metadata?.title] and [item.metadata?.description] *)
Definition metadata_title (item : SearchItem) : option jsstring :=
  m ← item_metadata item; title m.

Definition metadata_description (item : SearchItem) : option jsstring :=
  m ← item_metadata item; description m.

(** [x && x.trim() !== ''] for an optional string [x] *)
Definition usable (x : option jsstring) : bool :=
  match x with
  | Some s => negb (falsy s) && negb (blank s)
  | None => false
  end.

(** The sentinel assigned when no summary could be derived. *)
Definition no_summary : jsstring := [26080; 21487; 29992; 25688; 35201]%N.

Definition ellipsis : jsstring := js "...".

(** The naive truncation of the markdown, used when the summary call fails. *)
Definition truncated_markdown (markdown : jsstring) : jsstring :=
  replace_newlines (slice0 150 markdown)
  ++ (if (150 <? length markdown)%nat then ellipsis else []).

(** The value of [summary] when the chain of the per-result function reaches
    its final check: the title, else the description cut at 150 code units,
    else the generated summary of the markdown (its truncation if the call
    throws), else the empty string it was initialised with. *)
Definition selectSummary (E : externals) (item : SearchItem)
    (item_url_ : jsstring) : M jsstring :=
  if usable (metadata_title item) then
    ret (default [] (metadata_title item))
  else if usable (metadata_description item) then
    let description_ := default [] (metadata_description item) in
    ret (slice0 150 description_
         ++ (if (150 <? length description_)%nat then ellipsis else []))
  else
    match item_markdown item with
    | Some (c :: markdown') =>
        let markdown := c :: markdown' in
        try_catch
          (log (LogSummaryAttempt item_url_);;
           do content <- run_sync (trimPrompt E markdown (defaultContextSize E));
           do summaryResult <- await_call (CallGenerateSummary content)
                                 (generate_summary E content);
           log (LogSummaryDone summaryResult);;
           ret summaryResult)
          (fun e =>
             let fallback := truncated_markdown markdown in
             log (LogSummaryFailed item_url_ e);;
             ret fallback)
    | _ => ret []
    end.

(** The function mapped over [result.data] to build [newUrlsPromises]: the
    visited source of one search result, or [null]. *)
Definition newUrl (E : externals) (item : SearchItem) : M (option UrlWithSummary) :=
  match item_url item with
  | None => ret None
  | Some item_url_ =>
      if falsy item_url_ then ret None
      else
        do summary_ <- selectSummary E item item_url_;
        let summary_ :=
          if falsy summary_ || blank summary_ then no_summary else summary_ in
        do r <- fresh_ref;
        ret (Some {| ref := r; url := item_url_; summary := summary_ |})
  end.

(** [Math.ceil(breadth / 2)] for an integer [breadth] *)
Definition ceil_half (breadth : Z) : Z := (breadth + 1) / 2.

(** The follow-up prompt built for the recursive call. *)
Definition nextQuery_of (serpQuery : SerpQuery) (newLearnings : SerpLearnings)
    : jsstring :=
  trim ([10%N] ++ replicate 12 32%N ++ js "Previous research goal: "
        ++ researchGoal serpQuery
        ++ [10%N] ++ replicate 12 32%N ++ js "Follow-up research directions: "
        ++ concat ((fun q => 10%N :: q) <$> followUpQuestions newLearnings)
        ++ [10%N] ++ replicate 10 32%N).

(** How the [try] block of a branch completes when it does not throw: with
    its own result, or by returning the promise of the recursive call without
    awaiting it.  A promise returned this way settles the branch after the
    [try] block was left, so its rejection does not reach the [catch]. *)
Inductive completion :=
  | Value (result : ResearchResult)
  | Returned_call (query : jsstring) (breadth depth : Z)
      (known : list jsstring) (visited : list UrlWithSummary).

Definition empty_result : ResearchResult :=
  {| learnings := []; visitedUrls := [] |}.

(** The [TypeError] of reading a property of [null] or [undefined], and of
    calling what is not a function, with the messages Node gives them. *)
Definition TypeError_null : exn :=
  Error (js "Cannot read properties of null (reading 'message')").

Definition TypeError_undefined : exn :=
  Error (js "Cannot read properties of undefined (reading 'message')").

Definition TypeError_includes : exn :=
  Error (js "e.message.includes is not a function").

(** [e.message && e.message.includes('Timeout')]: the test of the branch
    handler.  It throws when [e] is [null] or [undefined], and when the
    message is truthy and has no [includes]. *)
Definition is_timeout (e : exn) : settled bool :=
  match e with
  | Error message => Fulfilled (negb (falsy message) && includes message (js "Timeout"))
  | No_message => Fulfilled false
  | Odd_message => Rejected TypeError_includes
  | Null => Rejected TypeError_null
  | Undefined => Rejected TypeError_undefined
  end.

(** The [try] block of a query branch.  [progress] is the progress object
    of the invocation the branch belongs to. *)
Definition branch_try (E : externals) (progress : nat) (breadth depth : Z)
    (known : list jsstring) (visited : list UrlWithSummary)
    (onProgress : option observer) (serpQuery : SerpQuery) : M completion :=
  do result <- await_call (CallSearch (sq_query serpQuery))
                 (firecrawl_search E (sq_query serpQuery));
  do newUrlsPromises <- mapM (newUrl E) (data result);
  let newUrls := compact newUrlsPromises in
  let newBreadth := ceil_half breadth in
  let newDepth := depth - 1 in
  do newLearnings <- processSerpResult E (sq_query serpQuery) result 3 newBreadth;
  let allLearnings := known ++ pr_learnings newLearnings in
  let allUrls := visited ++ newUrls in
  if 0 <? newDepth then
    log (LogDeeper newBreadth newDepth);;
    do p <- read_progress progress;
    reportProgress progress onProgress
      {| set_currentDepth := Some newDepth;
         set_currentBreadth := Some newBreadth;
         set_currentQuery := Some (Some (sq_query serpQuery));
         set_totalQueries := None;
         set_completedQueries := Some (completedQueries p + 1) |};;
    ret (Returned_call (nextQuery_of serpQuery newLearnings)
           newBreadth newDepth allLearnings allUrls)
  else
    do p <- read_progress progress;
    reportProgress progress onProgress
      {| set_currentDepth := Some 0;
         set_currentBreadth := None;
         set_currentQuery := Some (Some (sq_query serpQuery));
         set_totalQueries := None;
         set_completedQueries := Some (completedQueries p + 1) |};;
    ret (Value {| learnings := allLearnings; visitedUrls := allUrls |}).

(** The [catch] block of a query branch.  What its test throws leaves the
    block, hence the branch. *)
Definition branch_catch (serpQuery : SerpQuery) (e : exn) : M completion :=
  do timeout <- sync (is_timeout e);
  (if timeout then log (LogTimeout (sq_query serpQuery) e)
   else log (LogError (sq_query serpQuery) e));;
  ret (Value empty_result).

(** One query branch: the function given to [limit] for [serpQuery].
    [recurse] is [deepResearch] itself. *)
Definition branch (E : externals)
    (recurse : jsstring -> Z -> Z -> list jsstring -> list UrlWithSummary
               -> option observer -> M ResearchResult)
    (progress : nat) (breadth depth : Z)
    (known : list jsstring) (visited : list UrlWithSummary)
    (onProgress : option observer) (serpQuery : SerpQuery) : M ResearchResult :=
  do c <- try_catch
            (branch_try E progress breadth depth known visited onProgress serpQuery)
            (branch_catch serpQuery);
  match c with
  | Value result => ret result
  | Returned_call query breadth' depth' known' visited' =>
      recurse query breadth' depth' known' visited' onProgress
  end.

(** [Promise.all(serpQueries.map(serpQuery => limit(...)))]: with
    [ConcurrencyLimit = 1] the branches run one after the other, and
    [Promise.all] rejects with the first rejection.  The run of an invocation
    ends when its promise settles: the branches still queued at a rejection
    are run by the limiter afterwards, detached from the invocation, and are
    not part of its run. *)
Definition fan_out (E : externals)
    (recurse : jsstring -> Z -> Z -> list jsstring -> list UrlWithSummary
               -> option observer -> M ResearchResult)
    (progress : nat) (breadth depth : Z)
    (known : list jsstring) (visited : list UrlWithSummary)
    (onProgress : option observer) (serpQueries : list SerpQuery)
    : M (list ResearchResult) :=
  mapM (branch E recurse progress breadth depth known visited onProgress)
    serpQueries.

Definition same_object (a b : UrlWithSummary) : bool := (ref a =? ref b)%nat.

(** The aggregate returned by [deepResearch] from the branches' results. *)
Definition aggregate (results : list ResearchResult) : ResearchResult :=
  {| learnings := Set_spread same_string (results ≫= learnings);
     visitedUrls := Set_spread same_object (results ≫= visitedUrls) |}.

(** What an invocation does before it fans out: it builds its progress
    object, obtains the queries and reports them. *)
Definition prologue (E : externals) (query : jsstring) (breadth depth : Z)
    (known : list jsstring) (onProgress : option observer)
    : M (nat * list SerpQuery) :=
  do progress <- new_progress
      {| currentDepth := depth; totalDepth := depth;
         currentBreadth := breadth; totalBreadth := breadth;
         currentQuery := None; totalQueries := 0; completedQueries := 0 |};
  do serpQueries <- generateSerpQueries E query breadth known;
  reportProgress progress onProgress
    {| set_currentDepth := None;
       set_currentBreadth := None;
       set_currentQuery := Some (sq_query <$> head serpQueries);
       set_totalQueries := Some (Z.of_nat (length serpQueries));
       set_completedQueries := None |};;
  ret (progress, serpQueries).

(** [deepResearch({query, breadth, depth, learnings, visitedUrls, onProgress})].
    [fuel] bounds the number of nested invocations. *)
Fixpoint deepResearch (E : externals) (fuel : nat) (query : jsstring)
    (breadth depth : Z) (known : list jsstring) (visited : list UrlWithSummary)
    (onProgress : option observer) : M ResearchResult :=
  match fuel with
  | O => diverge
  | S fuel' =>
      do started <- prologue E query breadth depth known onProgress;
      do results <- fan_out E (deepResearch E fuel') (fst started) breadth depth
                      known visited onProgress (snd started);
      ret (aggregate results)
  end.

Definition initial : state :=
  {| next_ref := 0; progresses := []; events := [] |}.

(** ** Vocabulary of the properties *)

(** [m] never exhausts the fuel of a recursion. *)
Definition no_diverge {A} (m : M A) : Prop :=
  forall s, fst (m s) <> Diverge.

(** The state [m] ends in is related by [R] to the state it started in. *)
Definition preserves {A} (R : relation state) (m : M A) : Prop :=
  forall s, R s (snd (m s)).

(** The progress objects that exist in [s], those below [n] if there are at
    least [n], exist unchanged in [s']. *)
Definition frame (n : nat) (s s' : state) : Prop :=
  (n <= length (progresses s))%nat ->
  (length (progresses s) <= length (progresses s'))%nat
  /\ forall i, (i < n)%nat -> progresses s' !! i = progresses s !! i.

(** Every progress object of [s] is still there in [s'], with the totals it
    was built with. *)
Definition totals_kept (s s' : state) : Prop :=
  forall i p, progresses s !! i = Some p ->
    exists p', progresses s' !! i = Some p'
               /\ totalDepth p' = totalDepth p
               /\ totalBreadth p' = totalBreadth p.

(** Two states with the same objects: they may differ in the events
    recorded. *)
Definition same_objects (s1 s2 : state) : Prop :=
  next_ref s1 = next_ref s2 /\ progresses s1 = progresses s2.

(** Run from states with the same objects, [m1] and [m2] end the same way
    and in states with the same objects. *)
Definition agree {A} (m1 m2 : M A) : Prop :=
  forall s1 s2, same_objects s1 s2 ->
    fst (m1 s1) = fst (m2 s2) /\ same_objects (snd (m1 s1)) (snd (m2 s2)).

(** The search call of the branch of [serpQuery], run in state [s], or its
    call for learnings, fails with [e]. *)
Inductive branch_call_fails (E : externals) (breadth : Z)
    (serpQuery : SerpQuery) (s : state) (e : exn) : Prop :=
  | search_fails :
      firecrawl_search E (sq_query serpQuery) = Rejected e ->
      branch_call_fails E breadth serpQuery s e
  | learnings_fail result sources s1 contents s2 :
      firecrawl_search E (sq_query serpQuery) = Fulfilled result ->
      mapM (newUrl E) (data result)
        (snd (emit (CallSearch (sq_query serpQuery)) s)) = (Return sources, s1) ->
      mapM (fun content => run_sync (trimPrompt E content 25000))
        (compact_strings (item_markdown <$> data result)) s1
        = (Return contents, s2) ->
      generate_learnings E (sq_query serpQuery) contents 3 (ceil_half breadth)
        = Rejected e ->
      branch_call_fails E breadth serpQuery s e.

(** The update a branch reports once its search and its extraction are
    done, [p] being the progress object as it is then: the one of line 311
    when the decreased depth is positive, the one of line 332 otherwise. *)
Definition branch_report (breadth depth : Z) (serpQuery : SerpQuery)
    (p : ResearchProgress) : ProgressUpdate :=
  if 0 <? depth - 1 then
    {| set_currentDepth := Some (depth - 1);
       set_currentBreadth := Some (ceil_half breadth);
       set_currentQuery := Some (Some (sq_query serpQuery));
       set_totalQueries := None;
       set_completedQueries := Some (completedQueries p + 1) |}
  else
    {| set_currentDepth := Some 0;
       set_currentBreadth := None;
       set_currentQuery := Some (Some (sq_query serpQuery));
       set_totalQueries := None;
       set_completedQueries := Some (completedQueries p + 1) |}.

(** ** [writeFinalReport]

    The report generator is the [generateObject] call of [writeFinalReport],
    a function of what its prompt interpolates: the user's prompt and the
    trimmed learnings.  The function touches neither the progress objects
    nor the sources: it is a function of its arguments, [None] when the
    trimming of the learnings does not terminate.  It rejects with what
    [trimPrompt] throws, before any call to the model, and with the rejection
    of the model call. *)

(** [`<learning>\n${learning}\n</learning>`] *)
Definition learning_tag (learning : jsstring) : jsstring :=
  js "<learning>" ++ [10%N] ++ learning ++ [10%N] ++ js "</learning>".

(** [`- ${urlObj.url}\n  *${urlObj.summary}*`] *)
Definition source_entry (urlObj : UrlWithSummary) : jsstring :=
  js "- " ++ url urlObj ++ [10%N] ++ js "  *" ++ summary urlObj ++ js "*".

Definition sources_heading : jsstring :=
  [10%N; 10%N] ++ js "## Sources" ++ [10%N; 10%N].

(** The section appended to the report. *)
Definition urlsSection (visited : list UrlWithSummary) : jsstring :=
  sources_heading ++ join [10%N; 10%N] (source_entry <$> visited).

(** [writeFinalReport({prompt, learnings, visitedUrls})] *)
Definition writeFinalReport (E : externals)
    (generate_report : jsstring -> jsstring -> settled jsstring)
    (prompt : jsstring) (known : list jsstring) (visited : list UrlWithSummary)
    : option (settled jsstring) :=
  match trimPrompt E (join [10%N] (learning_tag <$> known)) 150000 with
  | None => None
  | Some (Rejected e) => Some (Rejected e)
  | Some (Fulfilled learningsString) =>
      Some match generate_report prompt learningsString with
           | Fulfilled reportMarkdown =>
               Fulfilled (reportMarkdown ++ urlsSection visited)
           | Rejected e => Rejected e
           end
  end.

(** ** Further vocabulary *)

(** What mapping a function that may throw over an array gives: the array
    of the results, or what the first call that throws throws. *)
Fixpoint all_fulfilled {A} (outs : list (settled A)) : settled (list A) :=
  match outs with
  | [] => Fulfilled []
  | Rejected e :: _ => Rejected e
  | Fulfilled a :: outs' =>
      match all_fulfilled outs' with
      | Fulfilled l => Fulfilled (a :: l)
      | Rejected e => Rejected e
      end
  end.

(** Every value [m] returns satisfies [Q]. *)
Definition returns {A} (m : M A) (Q : A -> Prop) : Prop :=
  forall s a s', m s = (Return a, s') -> Q a.

(** The progress objects are the same in [s'] as in [s]. *)
Definition same_progresses (s s' : state) : Prop :=
  progresses s' = progresses s.

(** A text cut at 150 code units, with the ellipsis if it was longer. *)
Definition cut150 (t : jsstring) : jsstring :=
  slice0 150 t ++ (if (150 <? length t)%nat then ellipsis else []).

(** The summary after the final check. *)
Definition checked (chain : jsstring) : jsstring :=
  if falsy chain || blank chain then no_summary else chain.

(** [l] is a learning that some call for learnings returned. *)
Definition extracted (E : externals) (l : jsstring) : Prop :=
  exists query contents numLearnings numFollowUpQuestions res,
    generate_learnings E query contents numLearnings numFollowUpQuestions
    = Fulfilled res
    /\ l ∈ pr_learnings res.

(** [u] is the url of a result that some search returned. *)
Definition searched (E : externals) (u : jsstring) : Prop :=
  exists query result item,
    firecrawl_search E query = Fulfilled result
    /\ item ∈ data result
    /\ item_url item = Some u.

(** [r] holds every learning of [known] and every object of [visited]. *)
Definition carries (known : list jsstring) (visited : list UrlWithSummary)
    (r : ResearchResult) : Prop :=
  (forall l, l ∈ known -> l ∈ learnings r)
  /\ (forall v, v ∈ visited -> exists v', v' ∈ visitedUrls r /\ ref v' = ref v).

(** The number of search calls recorded. *)
Fixpoint searches (evs : list event) : nat :=
  match evs with
  | [] => 0
  | CallSearch _ :: evs' => S (searches evs')
  | _ :: evs' => searches evs'
  end.

(** [m] makes at most [n] search calls. *)
Definition costs {A} (m : M A) (n : nat) : Prop :=
  forall s, (searches (events (snd (m s))) <= searches (events s) + n)%nat.

(** The most searches an invocation of the given breadth can make over the
    given number of levels: one per query, and for each query those of the
    next level at half the breadth. *)
Fixpoint search_bound (levels : nat) (breadth : Z) : nat :=
  match levels with
  | O => 0
  | S levels' =>
      (Z.to_nat breadth * (1 + search_bound levels' (ceil_half breadth)))%nat
  end.

(** The progress object at [progress] reports [total] queries, of which
    between [low] and [high] are completed. *)
Definition progress_within (progress : nat) (total low high : Z) (s : state) : Prop :=
  exists p, progresses s !! progress = Some p
            /\ totalQueries p = total
            /\ low <= completedQueries p <= high.

(** ** A scripted world

    Concrete collaborators on which the definitions above are evaluated: a
    tokenizer giving one token per code unit and throwing on a text that
    holds the special token [<|endoftext|>], a splitter cutting at the chunk
    size, and a model and a search provider answering by query. *)

Module Demo.

Local Open Scope string_scope.

Definition serp (q : string) : SerpQuery :=
  {| sq_query := js q; researchGoal := js "goal" |}.

(** A search result; an empty [t] or [md] stands for an absent title or
    markdown. *)
Definition field (x : string) : option jsstring :=
  match x with EmptyString => None | _ => Some (js x) end.

Definition page (u t md : string) : SearchItem :=
  {| item_url := Some (js u);
     item_markdown := field md;
     item_metadata := Some {| title := field t; description := None |} |}.

Definition asks (q : string) (s : jsstring) : bool := bool_decide (s = js q).

(** The error of the tokenizer on a text that holds a special token. *)
Definition special_token : exn :=
  Error (js "The text contains a special token that is not allowed: <|endoftext|>").

Definition tokenizer (t : jsstring) : settled (list N) :=
  if includes t (js "<|endoftext|>") then Rejected special_token else Fulfilled t.

Definition world : externals :=
  {| env_CONTEXT_SIZE := None;
     encode := tokenizer;
     splitText := fun chunkSize t => [take (Z.to_nat chunkSize) t];
     generate_queries := fun query _ _ =>
       if includes query (js "unanswerable")
       then Rejected (Error (js "no model"))
       else if asks "fragile" query then
         Fulfilled [{| sq_query := js "alpha"; researchGoal := js "unanswerable" |}]
       else if asks "topic" query then Fulfilled [serp "alpha"; serp "beta"]
       else if asks "flaky" query then Fulfilled [serp "down"; serp "alpha"]
       else if asks "hollow" query then Fulfilled [serp "void"; serp "alpha"]
       else if asks "tainted" query then Fulfilled [serp "marked"; serp "alpha"]
       else if asks "bare" query then Fulfilled [serp "raw"]
       else Fulfilled [serp "down"];
     firecrawl_search := fun query =>
       if asks "down" query then Rejected (Error (js "Timeout of 15000ms"))
       else if asks "void" query then Rejected Undefined
       else if asks "raw" query then
         Fulfilled {| data := [page "https://b.example" "" "text"] |}
       else if asks "marked" query then
         Fulfilled {| data := [page "https://m.example" "" "<|endoftext|>"] |}
       else
         Fulfilled {| data := [page "https://a.example" "Example" "body"] |};
     generate_summary := fun _ => Rejected (Error (js "no summary model"));
     generate_learnings := fun query _ _ _ =>
       Fulfilled {| pr_learnings := [js "fact"]; followUpQuestions := [js "next"] |} |}.

(** The world above with a tokenizer that has a token for each run of 200
    code units and one for each code unit that remains: shortening a text
    can give it more tokens. *)
Definition runs : externals :=
  {| env_CONTEXT_SIZE := None;
     encode := fun t =>
       Fulfilled (app (replicate (length t / 200)%nat 1%N)
                      (replicate (length t mod 200)%nat 0%N));
     splitText := splitText world;
     generate_queries := generate_queries world;
     firecrawl_search := firecrawl_search world;
     generate_summary := generate_summary world;
     generate_learnings := generate_learnings world |}.

(** A world in which every call succeeds: at every level one query, one
    titled page and one learning. *)
Definition steady : externals :=
  {| env_CONTEXT_SIZE := None;
     encode := Fulfilled;
     splitText := fun chunkSize t => [take (Z.to_nat chunkSize) t];
     generate_queries := fun _ _ _ => Fulfilled [serp "alpha"];
     firecrawl_search := fun _ =>
       Fulfilled {| data := [page "https://a.example" "Example" "body"] |};
     generate_summary := fun _ => Fulfilled (js "short");
     generate_learnings := fun _ _ _ _ =>
       Fulfilled {| pr_learnings := [js "fact"]; followUpQuestions := [js "next"] |} |}.

(** An observer that throws whenever it is called. *)
Definition angry : observer := fun _ => Rejected (Error (js "observer")).

(** An observer that throws once a query is reported completed. *)
Definition impatient : observer := fun p =>
  if (1 <=? completedQueries p)%Z then Rejected (Error (js "observer")) else Fulfilled tt.

(** An observer that returns normally. *)
Definition quiet : observer := fun _ => Fulfilled tt.

End Demo.

(** * Properties *)

(** ** Strings and arrays *)

Lemma slice0_nonneg {A} (e : Z) (s : list A) :
  0 <= e -> slice0 e s = take (Z.to_nat e) s.
Proof.
  intros He. unfold slice0.
  destruct (Z.ltb_spec e 0) as [Hlt | _]; [lia | reflexivity].
Qed.

Lemma slice0_length {A} (e : Z) (s : list A) :
  0 <= e -> length (slice0 e s) = Nat.min (Z.to_nat e) (length s).
Proof. intros He. rewrite slice0_nonneg by done. apply length_take. Qed.

(** ** [trimPrompt] *)

Section trimPrompt_properties.

Context (E : externals).

Lemma trimPrompt_fuel_unfold fuel prompt contextSize :
  trimPrompt_fuel E (S fuel) prompt contextSize =
  match trimPrompt_next E prompt contextSize with
  | Some next => trimPrompt_fuel E fuel next contextSize
  | None => Some (trimPrompt_base E prompt contextSize)
  end.
Proof.
  unfold trimPrompt_next, trimPrompt_base, chunkSize_of. simpl.
  destruct (falsy prompt); [done |].
  destruct (encode E prompt) as [tokens | e]; [| done].
  destruct (_ <=? contextSize); simpl; [done |].
  destruct (_ <? MinChunkSize); simpl; [done |].
  by destruct (_ =? _)%nat.
Qed.

(** A recursive call is made on a text that is not empty, that the
    tokenizer accepts and counts over budget, and whose estimated chunk size
    is at least [MinChunkSize]; it is made on the hard cut to the chunk size
    when the splitter made no progress, on the splitter's first chunk
    otherwise. *)
Lemma trimPrompt_next_Some prompt contextSize next :
  trimPrompt_next E prompt contextSize = Some next ->
  exists tokens,
    prompt <> []
    /\ encode E prompt = Fulfilled tokens
    /\ contextSize < Z.of_nat (length tokens)
    /\ MinChunkSize <= chunkSize_of prompt tokens contextSize
    /\ next =
       if (length (default [] (head (splitText E
                     (chunkSize_of prompt tokens contextSize) prompt)))
           =? length prompt)%nat
       then slice0 (chunkSize_of prompt tokens contextSize) prompt
       else default [] (head (splitText E
                          (chunkSize_of prompt tokens contextSize) prompt)).
Proof.
  unfold trimPrompt_next.
  destruct prompt as [| c prompt]; [done |].
  change (falsy (c :: prompt)) with false. cbv iota.
  destruct (encode E (c :: prompt)) as [tokens | e]; [| done].
  cbv zeta.
  destruct (Z.leb_spec (Z.of_nat (length tokens)) contextSize); [done |].
  destruct (Z.ltb_spec (chunkSize_of (c :: prompt) tokens contextSize) MinChunkSize);
    [done |].
  simpl orb. cbv iota. intros Hnext. exists tokens.
  split; [done |]. split; [done |]. split; [done |]. split; [done |].
  destruct (_ =? _)%nat; by injection Hnext as <-.
Qed.

(** How a call that makes no recursive call ends. *)
Lemma trimPrompt_base_ends prompt contextSize :
  trimPrompt_next E prompt contextSize = None ->
  ends_at E contextSize prompt (trimPrompt_base E prompt contextSize).
Proof.
  unfold trimPrompt_next, trimPrompt_base.
  destruct prompt as [| c prompt]; [intros _; by constructor |].
  change (falsy (c :: prompt)) with false. cbv iota.
  destruct (encode E (c :: prompt)) as [tokens | e] eqn:Hencode;
    [| intros _; by constructor].
  cbv zeta.
  destruct (Z.leb_spec (Z.of_nat (length tokens)) contextSize);
    [intros _; by econstructor |].
  destruct (Z.ltb_spec (chunkSize_of (c :: prompt) tokens contextSize) MinChunkSize).
  - intros _. by eapply ends_at_floor.
  - simpl orb. cbv iota. by destruct (_ =? _)%nat.
Qed.

(** What a run returns fits the budget or the floor. *)
Lemma ends_at_bound contextSize at_hand r :
  ends_at E contextSize at_hand (Fulfilled r) ->
  within_budget E r contextSize \/ (length r <= 140)%nat.
Proof.
  inversion 1 as [| | tokens | tokens]; subst.
  - right. simpl. lia.
  - left. by exists tokens.
  - right. rewrite slice0_length by done. unfold MinChunkSize. lia.
Qed.

Lemma ends_at_length contextSize at_hand r :
  ends_at E contextSize at_hand (Fulfilled r) -> (length r <= length at_hand)%nat.
Proof.
  inversion 1; subst; [simpl; lia | done |].
  rewrite slice0_length by done. lia.
Qed.

Lemma ends_at_prefix contextSize at_hand r :
  ends_at E contextSize at_hand (Fulfilled r) -> r `prefix_of` at_hand.
Proof.
  inversion 1; subst; [apply prefix_nil | done |].
  rewrite slice0_nonneg by done. apply prefix_take.
Qed.

(** A run ends on a text at hand that is related to the input by any
    relation that every recursive step respects. *)
Lemma trimPrompt_fuel_ends (R : relation jsstring) contextSize :
  Reflexive R -> Transitive R ->
  (forall prompt next,
      trimPrompt_next E prompt contextSize = Some next -> R next prompt) ->
  forall fuel prompt out,
    trimPrompt_fuel E fuel prompt contextSize = Some out ->
    exists at_hand, R at_hand prompt /\ ends_at E contextSize at_hand out.
Proof.
  intros Hrefl Htrans Hstep fuel.
  induction fuel as [| fuel IH]; intros prompt out; [done |].
  rewrite trimPrompt_fuel_unfold.
  destruct (trimPrompt_next E prompt contextSize) as [next |] eqn:Hnext.
  - intros Hrun. destruct (IH next out Hrun) as (at_hand & Hreach & Hends).
    exists at_hand. split; [| done]. etrans; [exact Hreach | by apply Hstep].
  - intros [= <-]. exists prompt. split; [done | by apply trimPrompt_base_ends].
Qed.

(** A recursive call is on a strictly shorter text: by the hard cut when the
    splitter made no progress, by the splitter's chunk otherwise. *)
Lemma trimPrompt_next_shorter prompt contextSize next :
  splitter_no_growth E ->
  trimPrompt_next E prompt contextSize = Some next ->
  (length next < length prompt)%nat.
Proof.
  intros Hsplit Hnext.
  destruct (trimPrompt_next_Some _ _ _ Hnext)
    as (tokens & Hne & Hencode & Hover & Hmin & ->).
  unfold chunkSize_of, MinChunkSize in *.
  destruct (Nat.eqb_spec
    (length (default [] (head (splitText E
       (Z.of_nat (length prompt) - (Z.of_nat (length tokens) - contextSize) * 3)
       prompt))))
    (length prompt)) as [| Hne'].
  - rewrite slice0_length by lia. lia.
  - pose proof (Hsplit
      (Z.of_nat (length prompt) - (Z.of_nat (length tokens) - contextSize) * 3)
      prompt). lia.
Qed.

(** A recursive call is on a text the input starts with. *)
Lemma trimPrompt_next_prefix prompt contextSize next :
  splitter_prefix E ->
  trimPrompt_next E prompt contextSize = Some next ->
  next `prefix_of` prompt.
Proof.
  intros Hsplit Hnext.
  destruct (trimPrompt_next_Some _ _ _ Hnext)
    as (tokens & Hne & Hencode & Hover & Hmin & ->).
  destruct (_ =? _)%nat; [| apply Hsplit].
  rewrite slice0_nonneg by (unfold MinChunkSize in Hmin; lia). apply prefix_take.
Qed.

Lemma splitter_prefix_no_growth : splitter_prefix E -> splitter_no_growth E.
Proof. intros H chunkSize t. apply prefix_length, H. Qed.

Lemma prefix_contiguous (c t : jsstring) : c `prefix_of` t -> contiguous_in c t.
Proof. intros [k ->]. by exists [], k. Qed.

(** With more fuel than the text has code units, [trimPrompt] ends: on a
    text at hand that is no longer than the input. *)
Lemma trimPrompt_fuel_enough contextSize :
  splitter_no_growth E ->
  forall fuel prompt,
    (length prompt < fuel)%nat ->
    exists out, trimPrompt_fuel E fuel prompt contextSize = Some out.
Proof.
  intros Hsplit fuel. induction fuel as [| fuel IH]; intros prompt Hlen; [lia |].
  rewrite trimPrompt_fuel_unfold.
  destruct (trimPrompt_next E prompt contextSize) as [next |] eqn:Hnext.
  - apply IH. apply trimPrompt_next_shorter in Hnext; [lia | done].
  - by eexists.
Qed.

(** Fuel beyond what a run needs does not change how it ends. *)
Lemma trimPrompt_fuel_mono contextSize fuel fuel' prompt out :
  (fuel <= fuel')%nat ->
  trimPrompt_fuel E fuel prompt contextSize = Some out ->
  trimPrompt_fuel E fuel' prompt contextSize = Some out.
Proof.
  revert fuel' prompt. induction fuel as [| fuel IH]; intros fuel' prompt Hle; [done |].
  destruct fuel' as [| fuel']; [lia |].
  rewrite !trimPrompt_fuel_unfold.
  destruct (trimPrompt_next E prompt contextSize); [apply IH; lia | done].
Qed.

Lemma trimPrompt_terminates_within prompt contextSize :
  splitter_no_growth E ->
  exists out, trimPrompt E prompt contextSize = Some out.
Proof.
  intros Hsplit.
  apply (trimPrompt_fuel_enough contextSize Hsplit (S (length prompt)) prompt). lia.
Qed.

(** C6, as amended: for every text and budget, [trimPrompt] terminates
    within as many nested calls as the text has code units (plus one): each
    recursive call is on a strictly shorter text, whether the hard cut of the
    no-progress case or the splitter's chunk produced it (the number of
    tokens may grow in a step).  It ends by returning a text whose token
    count is within the budget or that has at most [MinChunkSize = 140] code
    units, or by throwing what the tokenizer throws on the text at hand.  The
    splitter is a collaborator: its first chunk is taken to be no longer than
    the text it is given. *)
Theorem trimPrompt_terminates_bounded prompt contextSize :
  splitter_no_growth E ->
  (forall next, trimPrompt_next E prompt contextSize = Some next ->
                (length next < length prompt)%nat)
  /\ exists out,
       (forall fuel, (length prompt < fuel)%nat ->
                     trimPrompt_fuel E fuel prompt contextSize = Some out)
       /\ trimPrompt E prompt contextSize = Some out
       /\ match out with
          | Fulfilled r =>
              within_budget E r contextSize
              \/ (length r <= Z.to_nat MinChunkSize)%nat
          | Rejected e =>
              exists at_hand,
                (length at_hand <= length prompt)%nat
                /\ encode E at_hand = Rejected e
          end.
Proof.
  intros Hsplit. split.
  - intros next. by apply trimPrompt_next_shorter.
  - destruct (trimPrompt_terminates_within prompt contextSize Hsplit) as [out Hout].
    exists out. split; [| split; [done |]].
    + intros fuel Hfuel. eapply trimPrompt_fuel_mono; [| exact Hout]. lia.
    + destruct (trimPrompt_fuel_ends
                  (fun a b : jsstring => (length a <= length b)%nat) contextSize)
        with (fuel := S (length prompt)) (prompt := prompt) (out := out)
        as (at_hand & Hreach & Hends); [by intros ? | by intros ? ? ? ? ?; lia | | done |].
      { intros p next Hnext. apply (trimPrompt_next_shorter _ _ _ Hsplit) in Hnext. lia. }
      destruct out as [r | e].
      * by eapply ends_at_bound.
      * exists at_hand. split; [done |]. by inversion Hends.
Qed.

(** C2, as amended: when [trimPrompt] returns, its result is a piece the
    input starts with, and its token count is within the budget unless the
    estimated chunk size of the text at hand fell below [MinChunkSize], in
    which case the result is the text at hand cut to its first 140 code
    units, whatever its token count (an empty text is returned without being
    counted).  When the tokenizer throws on the text at hand, so does
    [trimPrompt].  The text at hand is a piece the input starts with, the
    first chunk of the splitter being the piece its text starts with. *)
Theorem trimPrompt_contiguous_reduction prompt contextSize :
  splitter_prefix E ->
  exists at_hand out,
    trimPrompt E prompt contextSize = Some out
    /\ at_hand `prefix_of` prompt
    /\ match out with
       | Rejected e => encode E at_hand = Rejected e
       | Fulfilled r =>
           r `prefix_of` prompt
           /\ contiguous_in r prompt
           /\ (r = []
               \/ within_budget E r contextSize
               \/ exists tokens,
                    encode E at_hand = Fulfilled tokens
                    /\ contextSize < Z.of_nat (length tokens)
                    /\ chunkSize_of at_hand tokens contextSize < MinChunkSize
                    /\ r = slice0 MinChunkSize at_hand)
       end.
Proof.
  intros Hsplit.
  destruct (trimPrompt_terminates_within prompt contextSize
              (splitter_prefix_no_growth Hsplit)) as [out Hout].
  destruct (trimPrompt_fuel_ends prefix contextSize)
    with (fuel := S (length prompt)) (prompt := prompt) (out := out)
    as (at_hand & Hreach & Hends); [apply _ | apply _ | | done |].
  { intros p next. by apply trimPrompt_next_prefix. }
  exists at_hand, out. split; [done |]. split; [done |].
  destruct out as [r | e]; [| by inversion Hends].
  assert (r `prefix_of` prompt) as Hprefix
    by (etrans; [by eapply ends_at_prefix | done]).
  split; [done |]. split; [by apply prefix_contiguous |].
  inversion Hends as [| | tokens | tokens]; subst.
  - by left.
  - right; left. by exists tokens.
  - right; right. by exists tokens.
Qed.

End trimPrompt_properties.

(** The scripted splitter returns a piece its input starts with. *)
Lemma Demo_splitter_prefix : splitter_prefix Demo.world.
Proof. intros chunkSize t. simpl. apply prefix_take. Qed.

Lemma Demo_splitter_no_growth : splitter_no_growth Demo.world.
Proof. apply splitter_prefix_no_growth, Demo_splitter_prefix. Qed.

Lemma trimPrompt_terminates_bounded_witness :
  splitter_no_growth Demo.world
  /\ trimPrompt Demo.world (replicate 500 97%N) 400
     = Some (Fulfilled (replicate 200 97%N))
  /\ (within_budget Demo.world (replicate 200 97%N) 400
      \/ (length (replicate 200 97%N) <= Z.to_nat MinChunkSize)%nat).
Proof.
  split; [exact Demo_splitter_no_growth |].
  destruct (trimPrompt_terminates_bounded Demo.world (replicate 500 97%N) 400
              Demo_splitter_no_growth) as (_ & out & _ & Hrun & Hbound).
  vm_compute in Hrun. injection Hrun as <-.
  split; [vm_compute; reflexivity | exact Hbound].
Defined.

Lemma trimPrompt_contiguous_reduction_witness :
  splitter_prefix Demo.world
  /\ trimPrompt Demo.world (replicate 500 97%N) 400
     = Some (Fulfilled (replicate 200 97%N))
  /\ replicate 200 97%N `prefix_of` replicate 500 97%N.
Proof.
  split; [exact Demo_splitter_prefix |].
  destruct (trimPrompt_contiguous_reduction Demo.world (replicate 500 97%N) 400
              Demo_splitter_prefix) as (at_hand & out & Hrun & _ & Hout).
  vm_compute in Hrun. injection Hrun as <-.
  split; [vm_compute; reflexivity | exact (proj1 Hout)].
Defined.

(** On the scripted world a text of 500 code units and tokens, with a budget
    of 400 tokens, is cut in one recursive step to the 200 code units that
    the estimate allows, which fit. *)
Example trimPrompt_demo_run :
  trimPrompt Demo.world (replicate 500 97%N) 400
  = Some (Fulfilled (replicate 200 97%N)).
Proof. vm_compute. reflexivity. Qed.

(** C2 fails as stated: with a budget of 0 tokens the one-letter text is
    returned as it is, over budget, by every tokenizer that gives it at
    least one token. *)
Lemma trimPrompt_exceeds_budget :
  exists prompt contextSize,
    forall E tokens,
      encode E prompt = Fulfilled tokens -> tokens <> [] ->
      trimPrompt E prompt contextSize = Some (Fulfilled prompt)
      /\ contextSize < Z.of_nat (length tokens).
Proof.
  exists (js "a"), 0. intros E tokens Hencode Hne.
  assert (0 < Z.of_nat (length tokens)) as Hpos
    by (destruct tokens; [done | simpl; lia]).
  split; [| done].
  unfold trimPrompt. rewrite trimPrompt_fuel_unfold.
  unfold trimPrompt_next, trimPrompt_base. simpl falsy. cbv iota.
  rewrite Hencode. cbv zeta. unfold chunkSize_of.
  change (length (js "a")) with 1%nat.
  destruct (Z.leb_spec (Z.of_nat (length tokens)) 0) as [| _]; [lia |].
  destruct (Z.ltb_spec
    (Z.of_nat 1 - (Z.of_nat (length tokens) - 0) * 3) MinChunkSize)
    as [_ | Hge]; [reflexivity | unfold MinChunkSize in Hge; lia].
Qed.

(** The same on the scripted world with a realistic budget: 200 code units
    and a budget of 10 tokens give the first 140 code units, 140 tokens. *)
Example trimPrompt_floor_over_budget :
  trimPrompt Demo.world (replicate 200 97%N) 10
  = Some (Fulfilled (replicate 140 97%N))
  /\ encode Demo.world (replicate 140 97%N) = Fulfilled (replicate 140 97%N).
Proof. split; vm_compute; reflexivity. Qed.

(** On a text that holds a special token the tokenizer throws, and so does
    [trimPrompt], whatever the budget. *)
Example trimPrompt_special_token :
  trimPrompt Demo.world (js "<|endoftext|>") 128000 = Some (Rejected Demo.special_token).
Proof. vm_compute. reflexivity. Qed.

Lemma Demo_runs_no_growth : splitter_no_growth Demo.runs.
Proof. intros chunkSize t. simpl. rewrite length_take. lia. Qed.

(** C6 fails as stated for the token length: a step that is not the hard
    cut of the no-progress case can raise the number of tokens.  With a
    tokenizer that has a token for a run of 200 code units, a text of 600
    code units has 3 tokens; with a budget of 2 the splitter's chunk of 597
    code units is shorter than the text, so the step is an ordinary one, and
    it has 199 tokens. *)
Lemma trimPrompt_step_raises_tokens :
  splitter_no_growth Demo.runs
  /\ length <$> encode_tokens Demo.runs (replicate 600 97%N) = Some 3%nat
  /\ length (default [] (head (splitText Demo.runs 597 (replicate 600 97%N))))
     = 597%nat
  /\ trimPrompt_next Demo.runs (replicate 600 97%N) 2 = Some (replicate 597 97%N)
  /\ length <$> encode_tokens Demo.runs (replicate 597 97%N) = Some 199%nat.
Proof.
  split; [exact Demo_runs_no_growth |].
  repeat split; vm_compute; reflexivity.
Qed.

(** ** The summary of a visited source *)

Lemma trim_nil : trim [] = [].
Proof. reflexivity. Qed.

Lemma not_blank_not_falsy (s : jsstring) : trim s <> [] -> falsy s = false.
Proof. destruct s; [by rewrite trim_nil | done]. Qed.

Lemma blank_false (s : jsstring) : trim s <> [] <-> blank s = false.
Proof. unfold blank. destruct (trim s); simpl; split; done. Qed.

Lemma usable_Some (t : jsstring) : trim t <> [] -> usable (Some t) = true.
Proof.
  intros Ht. simpl. rewrite (not_blank_not_falsy _ Ht).
  apply blank_false in Ht. by rewrite Ht.
Qed.

Lemma no_summary_not_blank : trim no_summary = no_summary.
Proof. vm_compute. reflexivity. Qed.

(** The final check of the per-result function leaves a summary that is
    neither empty nor blank. *)
Lemma final_summary_not_blank (chain : jsstring) :
  trim (if falsy chain || blank chain then no_summary else chain) <> [].
Proof.
  destruct (falsy chain || blank chain) eqn:Hcheck.
  - by rewrite no_summary_not_blank.
  - apply orb_false_iff in Hcheck as [_ Hblank]. by apply blank_false.
Qed.

(** [selectSummary] never throws: the only call that can fail is inside a
    [try] whose handler does not fail. *)
Lemma selectSummary_no_throw E item item_url_ s e :
  fst (selectSummary E item item_url_ s) <> Throw e.
Proof.
  unfold selectSummary.
  destruct (usable (metadata_title item)); [done |].
  destruct (usable (metadata_description item)); [done |].
  destruct (item_markdown item) as [[| c markdown] |]; [done | | done].
  unfold try_catch, bind, log, emit, run_sync, sync, await_call, bind, emit, ret,
    throw, diverge.
  simpl.
  destruct (trimPrompt E (c :: markdown) (defaultContextSize E))
    as [[content | e'] |]; simpl; [| done | done].
  by destruct (generate_summary E _).
Qed.

(** C8: for a search result with a url and a title that is not empty after
    trimming, whatever its markdown, the derived source carries the title
    verbatim as its summary, and deriving it makes no call and writes no log
    line: the summarisation call is not made, and the truncation fallback,
    which only the handler of that call computes and logs, is not run. *)
Theorem summary_priority_title E item item_url_ title_ s :
  item_url item = Some item_url_ ->
  item_url_ <> [] ->
  metadata_title item = Some title_ ->
  trim title_ <> [] ->
  selectSummary E item item_url_ s = (Return title_, s)
  /\ newUrl E item s =
       (Return (Some {| ref := next_ref s; url := item_url_; summary := title_ |}),
        {| next_ref := S (next_ref s); progresses := progresses s;
           events := events s |}).
Proof.
  intros Hurl Hne Htitle Htrim.
  assert (selectSummary E item item_url_ s = (Return title_, s)) as Hselect.
  { unfold selectSummary. rewrite Htitle, (usable_Some _ Htrim). reflexivity. }
  split; [done |].
  unfold newUrl. rewrite Hurl.
  destruct item_url_ as [| c u]; [done |].
  change (falsy (c :: u)) with false. unfold bind at 1. cbv beta iota.
  rewrite Hselect.
  rewrite (not_blank_not_falsy _ Htrim).
  apply blank_false in Htrim. rewrite Htrim. reflexivity.
Qed.

(** C9: for a search result with a url, deriving the source does not throw,
    and the summary of the derived source is never the empty string (nor
    blank); when the chain of title, description and markdown summary ends
    with an empty or blank text, the summary is the fixed sentinel. *)
Theorem summary_never_empty E item item_url_ s :
  item_url item = Some item_url_ ->
  item_url_ <> [] ->
  (forall e, fst (newUrl E item s) <> Throw e)
  /\ (forall v s', newUrl E item s = (Return v, s') ->
        exists r summary_,
          v = Some {| ref := r; url := item_url_; summary := summary_ |}
          /\ summary_ <> []
          /\ trim summary_ <> []
          /\ (forall chain s1,
                selectSummary E item item_url_ s = (Return chain, s1) ->
                chain = [] \/ trim chain = [] ->
                summary_ = no_summary)).
Proof.
  intros Hurl Hne. unfold newUrl. rewrite Hurl.
  destruct item_url_ as [| c u]; [done |].
  change (falsy (c :: u)) with false. unfold bind, fresh_ref, ret. cbv beta iota.
  pose proof (selectSummary_no_throw E item (c :: u) s) as Hno.
  destruct (selectSummary E item (c :: u) s) as [[chain | e | ] s1]; simpl in *.
  - split; [done |]. intros v s' [= <- <-].
    eexists _, _. split; [reflexivity |].
    pose proof (final_summary_not_blank chain) as Hfinal.
    split; [| split; [done |]].
    + intros Heq. rewrite Heq in Hfinal. by rewrite trim_nil in Hfinal.
    + intros chain' s1' [= <- <-] [-> | Hblank]; [done |].
      unfold blank. rewrite Hblank. simpl. by rewrite orb_true_r.
  - by destruct (Hno e).
  - split; done.
Qed.

Lemma summary_priority_title_witness :
  exists s',
    newUrl Demo.world (Demo.page "https://a.example" "Example" "body")
      initial
    = (Return (Some {| ref := 0; url := js "https://a.example";
                       summary := js "Example" |}), s')
    /\ events s' = [].
Proof.
  eexists. split.
  - apply (summary_priority_title Demo.world
             (Demo.page "https://a.example" "Example" "body")
             (js "https://a.example") (js "Example") initial);
      [reflexivity | discriminate | reflexivity | vm_compute; discriminate].
  - reflexivity.
Defined.

Lemma summary_never_empty_witness :
  item_url
    {| item_url := Some (js "https://c.example");
       item_markdown := Some (js "   ");
       item_metadata := None |} = Some (js "https://c.example")
  /\ exists r,
       fst (newUrl Demo.world
              {| item_url := Some (js "https://c.example");
                 item_markdown := Some (js "   ");
                 item_metadata := None |} initial)
       = Return (Some {| ref := r; url := js "https://c.example";
                         summary := no_summary |})
       /\ no_summary <> [].
Proof.
  split; [reflexivity |].
  destruct (summary_never_empty Demo.world
              {| item_url := Some (js "https://c.example");
                 item_markdown := Some (js "   ");
                 item_metadata := None |}
              (js "https://c.example") initial) as [_ Hreturned];
    [reflexivity | discriminate |].
  destruct (Hreturned
              (Some {| ref := 0; url := js "https://c.example";
                       summary := no_summary |})
              (snd (newUrl Demo.world
                      {| item_url := Some (js "https://c.example");
                         item_markdown := Some (js "   ");
                         item_metadata := None |} initial)))
    as (r & summary_ & Hv & Hne & _ & _); [vm_compute; reflexivity |].
  injection Hv as <- <-.
  exists 0%nat. split; [vm_compute; reflexivity | exact Hne].
Defined.

(** On the scripted world the summary call fails and the source of a result
    without title and description carries the truncated markdown. *)
Example summary_fallback_run :
  fst (newUrl Demo.world (Demo.page "https://b.example" "" "text") initial)
  = Return (Some {| ref := 0; url := js "https://b.example"; summary := js "text" |}).
Proof. vm_compute. reflexivity. Qed.

(** ** Deduplication by [Set] *)

Section Set_spread_properties.

Context {A K : Type} (same : A -> A -> bool) (key : A -> K).
Context (same_key : forall x y, same x y = true <-> key x = key y).

Lemma existsb_same_key x seen :
  existsb (same x) seen = true <-> key x ∈ key <$> seen.
Proof.
  rewrite existsb_exists, list_elem_of_fmap. split.
  - intros (y & Hy & Hsame). exists y. split; [| by apply list_elem_of_In].
    by apply same_key.
  - intros (y & Hkey & Hy). exists y. split; [by apply list_elem_of_In |].
    by apply same_key.
Qed.

Lemma Set_spread_from_spec seen xs :
  NoDup (key <$> Set_spread_from same seen xs)
  /\ (forall y, y ∈ Set_spread_from same seen xs ->
                y ∈ xs /\ key y ∉ key <$> seen)
  /\ (forall x, x ∈ xs -> key x ∉ key <$> seen ->
                key x ∈ key <$> Set_spread_from same seen xs).
Proof.
  revert seen. induction xs as [| x xs IH]; intros seen; simpl.
  - split; [constructor |]. split; intros y Hy; by apply elem_of_nil in Hy.
  - destruct (existsb (same x) seen) eqn:Hseen.
    + apply existsb_same_key in Hseen.
      destruct (IH seen) as (Hnd & Hin & Hall). split; [done |]. split.
      * intros y Hy. destruct (Hin y Hy). split; [by right | done].
      * intros y [-> | Hy]%elem_of_cons Hfresh; [done | by apply Hall].
    + assert (key x ∉ key <$> seen) as Hfresh.
      { intros Hin. apply existsb_same_key in Hin. congruence. }
      destruct (IH (x :: seen)) as (Hnd & Hin & Hall).
      split; [| split].
      * rewrite fmap_cons. constructor; [| done].
        intros (y & Hkey & Hy)%list_elem_of_fmap.
        destruct (Hin y Hy) as [_ Hnot]. apply Hnot.
        rewrite fmap_cons, Hkey. by left.
      * intros y [-> | Hy]%elem_of_cons; [split; [by left | done] |].
        destruct (Hin y Hy) as [Hxs Hnot]. split; [by right |].
        intros Hseen'. apply Hnot. rewrite fmap_cons. by right.
      * intros y Hy Hy'. rewrite fmap_cons.
        destruct (same y x) eqn:Hyx.
        -- apply same_key in Hyx. rewrite Hyx. by left.
        -- assert (key y <> key x) as Hne.
           { intros Heq. apply same_key in Heq. congruence. }
           right. apply elem_of_cons in Hy as [-> | Hy]; [done |].
           apply Hall; [done |]. rewrite fmap_cons.
           by intros [? | ?]%elem_of_cons.
Qed.

Lemma Set_spread_NoDup xs : NoDup (key <$> Set_spread same xs).
Proof. apply (Set_spread_from_spec [] xs). Qed.

Lemma Set_spread_subset xs y : y ∈ Set_spread same xs -> y ∈ xs.
Proof. intros Hy. by apply (Set_spread_from_spec [] xs). Qed.

Lemma Set_spread_covers xs x :
  x ∈ xs -> exists y, y ∈ Set_spread same xs /\ key y = key x.
Proof.
  intros Hx.
  destruct (Set_spread_from_spec [] xs) as (_ & _ & Hall).
  specialize (Hall x Hx). rewrite fmap_nil in Hall.
  destruct (proj1 (list_elem_of_fmap _ _ _) (Hall (not_elem_of_nil _)))
    as (y & Hkey & Hy).
  by exists y.
Qed.

End Set_spread_properties.

(** ** The aggregate of the branches *)

Lemma same_string_key (x y : jsstring) : same_string x y = true <-> id x = id y.
Proof. unfold same_string. apply bool_decide_eq_true. Qed.

Lemma same_object_key (a b : UrlWithSummary) :
  same_object a b = true <-> ref a = ref b.
Proof. unfold same_object. apply Nat.eqb_eq. Qed.

(** The learnings of the aggregate hold no string twice. *)
Lemma aggregate_learnings_NoDup results : NoDup (learnings (aggregate results)).
Proof.
  rewrite <- (list_fmap_id (learnings (aggregate results))).
  apply (Set_spread_NoDup same_string id same_string_key).
Qed.

(** The sources of the aggregate hold no object twice. *)
Lemma aggregate_visitedUrls_NoDup results :
  NoDup (ref <$> visitedUrls (aggregate results)).
Proof. apply (Set_spread_NoDup same_object ref same_object_key). Qed.

(** The learnings of the aggregate are those of the branches. *)
Lemma aggregate_learnings_elem results l :
  l ∈ learnings (aggregate results) <-> exists r, r ∈ results /\ l ∈ learnings r.
Proof.
  simpl. split.
  - intros Hl. apply (Set_spread_subset same_string id same_string_key) in Hl.
    apply list_elem_of_bind in Hl as (r & ? & ?).
    by exists r.
  - intros (r & Hr & Hl).
    destruct (Set_spread_covers same_string id same_string_key
                (results ≫= learnings) l) as (y & Hy & Hkey).
    + apply list_elem_of_bind. by exists r.
    + unfold id in Hkey. by subst y.
Qed.

(** Every source object of a branch is in the aggregate. *)
Lemma aggregate_visitedUrls_covers results r v :
  r ∈ results -> v ∈ visitedUrls r ->
  exists v', v' ∈ visitedUrls (aggregate results) /\ ref v' = ref v.
Proof.
  intros Hr Hv.
  apply (Set_spread_covers same_object ref same_object_key).
  apply list_elem_of_bind. by exists r.
Qed.

(** A branch that contributes the empty result adds nothing. *)
Lemma aggregate_skip_empty before after :
  aggregate (before ++ empty_result :: after) = aggregate (before ++ after).
Proof. unfold aggregate. by rewrite !bind_app, !bind_cons. Qed.

Lemma aggregate_all_empty results :
  Forall (fun r => r = empty_result) results -> aggregate results = empty_result.
Proof.
  intros Hall. unfold aggregate.
  assert (results ≫= learnings = [] /\ results ≫= visitedUrls = []) as [-> ->];
    [| reflexivity].
  induction Hall as [| r results -> _ [IHl IHv]]; [done |].
  by rewrite !bind_cons, IHl, IHv.
Qed.

(** C1 (the code departs from it): breadth 2, depth 1, two queries whose
    searches each return the page [https://a.example] titled [Example] and
    whose extraction each yields the learning [fact].  The returned
    learnings hold [fact] once; the returned [visitedUrls] hold two entries
    with the same url and the same summary, because the two objects differ
    in reference and [Set] compares objects by reference. *)
Theorem aggregate_keeps_equal_sources :
  fst (deepResearch Demo.world 1 (js "topic") 2 1 [] [] None initial)
  = Return
      {| learnings := [js "fact"];
         visitedUrls :=
           [ {| ref := 0; url := js "https://a.example"; summary := js "Example" |};
             {| ref := 1; url := js "https://a.example"; summary := js "Example" |} ] |}.
Proof. vm_compute. reflexivity. Qed.

(** ** Running computations *)

Lemma bind_Return {A B} (m : M A) (k : A -> M B) s a s1 :
  m s = (Return a, s1) -> bind m k s = k a s1.
Proof. intros H. unfold bind. by rewrite H. Qed.

Lemma bind_Throw {A B} (m : M A) (k : A -> M B) s e s1 :
  m s = (Throw e, s1) -> bind m k s = (Throw e, s1).
Proof. intros H. unfold bind. by rewrite H. Qed.

Lemma bind_Diverge {A B} (m : M A) (k : A -> M B) s s1 :
  m s = (Diverge, s1) -> bind m k s = (Diverge, s1).
Proof. intros H. unfold bind. by rewrite H. Qed.

Lemma try_catch_Return {A} (body : M A) handler s a s1 :
  body s = (Return a, s1) -> try_catch body handler s = (Return a, s1).
Proof. intros H. unfold try_catch. by rewrite H. Qed.

Lemma try_catch_Throw {A} (body : M A) handler s e s1 :
  body s = (Throw e, s1) -> try_catch body handler s = handler e s1.
Proof. intros H. unfold try_catch. by rewrite H. Qed.

Lemma mapM_cons_Return {A B} (f : A -> M B) x l s y s1 ys s2 :
  f x s = (Return y, s1) ->
  mapM f l s1 = (Return ys, s2) ->
  mapM f (x :: l) s = (Return (y :: ys), s2).
Proof.
  intros Hx Hl. simpl.
  rewrite (bind_Return _ _ _ _ _ Hx), (bind_Return _ _ _ _ _ Hl). reflexivity.
Qed.

Lemma mapM_app_Return {A B} (f : A -> M B) l1 l2 s r1 s1 r2 s2 :
  mapM f l1 s = (Return r1, s1) ->
  mapM f l2 s1 = (Return r2, s2) ->
  mapM f (l1 ++ l2) s = (Return (r1 ++ r2), s2).
Proof.
  revert s r1. induction l1 as [| x l1 IH]; intros s r1 H1 H2.
  - injection H1 as <- <-. exact H2.
  - simpl in H1. unfold bind at 1 in H1.
    destruct (f x s) as [[y | e | ] sx] eqn:Hx; [| done | done].
    unfold bind at 1 in H1.
    destruct (mapM f l1 sx) as [[ys | e | ] sl] eqn:Hl1; [| done | done].
    injection H1 as <- <-. simpl.
    rewrite (bind_Return _ _ _ _ _ Hx), (bind_Return _ _ _ _ _ (IH _ _ Hl1 H2)).
    reflexivity.
Qed.

Lemma await_call_Rejected {A} ev (e : exn) s :
  await_call (A := A) ev (Rejected e) s = (Throw e, snd (emit ev s)).
Proof. reflexivity. Qed.

Lemma await_call_Fulfilled {A} ev (a : A) s :
  await_call ev (Fulfilled a) s = (Return a, snd (emit ev s)).
Proof. reflexivity. Qed.

(** In [H : (do x <- m; k) s = r], case on how [m s] ends; the cases in
    which [m] throws or diverges are closed when [r] is a returned value. *)
Ltac bind_inv H :=
  unfold bind at 1 in H;
  lazymatch type of H with
  | match ?r with pair _ _ => _ end = _ =>
      let E := fresh "Hrun" in
      destruct r as [[? | ? | ] ?] eqn:E; [| discriminate H | discriminate H]
  end.

(** A query generation that succeeds: the queries are cut to the number
    asked for. *)
Lemma generateSerpQueries_Fulfilled E query numQueries known proposed s :
  generate_queries E query known numQueries = Fulfilled proposed ->
  generateSerpQueries E query numQueries known s
  = (Return (slice0 numQueries proposed),
     {| next_ref := next_ref s; progresses := progresses s;
        events := events s ++ [CallGenerateQueries query known numQueries;
                               Log (LogCreatedQueries proposed)] |}).
Proof.
  intros Hgen. unfold generateSerpQueries. rewrite Hgen.
  unfold bind, await_call, bind, emit, log, emit, ret. simpl.
  by rewrite <- (assoc_L (++)).
Qed.

(** ** Branches *)

Section branch_properties.

Context (E : externals).
Context (recurse : jsstring -> Z -> Z -> list jsstring -> list UrlWithSummary
                   -> option observer -> M ResearchResult).
Context (progress : nat) (breadth depth : Z).
Context (known : list jsstring) (visited : list UrlWithSummary).

(** The handler of a branch returns the empty result when its test
    returns, and throws what its test throws. *)
Lemma branch_catch_outcome serpQuery e s :
  exists s',
    branch_catch serpQuery e s
    = (match is_timeout e with
       | Fulfilled _ => Return (Value empty_result)
       | Rejected e' => Throw e'
       end, s').
Proof.
  unfold branch_catch, bind, sync.
  destruct (is_timeout e) as [[] | e']; eexists; reflexivity.
Qed.

(** Whatever the handler of a branch returns is the empty result. *)
Lemma branch_catch_returns serpQuery e s c s' :
  branch_catch serpQuery e s = (Return c, s') -> c = Value empty_result.
Proof.
  destruct (branch_catch_outcome serpQuery e s) as [s1 ->].
  destruct (is_timeout e); [by intros [= <- <-] | done].
Qed.

(** A branch whose [try] block throws contributes the empty result when the
    test of its handler returns, and throws what that test throws. *)
Lemma branch_thrown_outcome onProgress serpQuery s e s1 :
  branch_try E progress breadth depth known visited onProgress serpQuery s
  = (Throw e, s1) ->
  exists s2,
    branch E recurse progress breadth depth known visited onProgress serpQuery s
    = (match is_timeout e with
       | Fulfilled _ => Return empty_result
       | Rejected e' => Throw e'
       end, s2).
Proof.
  intros Htry. destruct (branch_catch_outcome serpQuery e s1) as [s2 Hcatch].
  exists s2. unfold branch, bind.
  rewrite (try_catch_Throw _ _ _ _ _ Htry), Hcatch.
  by destruct (is_timeout e).
Qed.

Lemma branch_thrown_empty onProgress serpQuery s e s1 timeout :
  branch_try E progress breadth depth known visited onProgress serpQuery s
  = (Throw e, s1) ->
  is_timeout e = Fulfilled timeout ->
  exists s2,
    branch E recurse progress breadth depth known visited onProgress serpQuery s
    = (Return empty_result, s2).
Proof.
  intros Htry Htest.
  destruct (branch_thrown_outcome onProgress serpQuery s e s1 Htry) as [s2 Hrun].
  rewrite Htest in Hrun. by exists s2.
Qed.

(** A failing search or a failing call for learnings makes the [try] block
    throw. *)
Lemma branch_call_fails_throws onProgress serpQuery s e :
  branch_call_fails E breadth serpQuery s e ->
  exists s1,
    branch_try E progress breadth depth known visited onProgress serpQuery s
    = (Throw e, s1).
Proof.
  intros [Hsearch | result sources s1 contents s2 Hsearch Hsources Hcontents Hgen];
    unfold branch_try; rewrite Hsearch.
  - eexists. apply bind_Throw, await_call_Rejected.
  - erewrite bind_Return; [| apply await_call_Fulfilled].
    erewrite bind_Return; [| exact Hsources].
    eexists. apply bind_Throw. unfold processSerpResult.
    erewrite bind_Return; [| exact Hcontents].
    erewrite bind_Return; [| reflexivity].
    apply bind_Throw. rewrite Hgen. apply await_call_Rejected.
Qed.

Lemma branch_call_fails_empty onProgress serpQuery s e timeout :
  branch_call_fails E breadth serpQuery s e ->
  is_timeout e = Fulfilled timeout ->
  exists s2,
    branch E recurse progress breadth depth known visited onProgress serpQuery s
    = (Return empty_result, s2).
Proof.
  intros Hfails Htest.
  destruct (branch_call_fails_throws onProgress _ _ _ Hfails) as [s1 Htry].
  by eapply branch_thrown_empty.
Qed.

(** How the [try] block completes when it does not throw: by returning the
    recursive call, made with the depth decreased by 1 and the breadth
    halved, when the decreased depth is positive; with the accumulators of
    the branch otherwise. *)
Lemma branch_try_completion onProgress serpQuery s c s1 :
  branch_try E progress breadth depth known visited onProgress serpQuery s
  = (Return c, s1) ->
  exists newLearnings newUrls,
    if 0 <? depth - 1 then
      c = Returned_call (nextQuery_of serpQuery newLearnings)
            (ceil_half breadth) (depth - 1)
            (known ++ pr_learnings newLearnings) (visited ++ newUrls)
    else
      c = Value {| learnings := known ++ pr_learnings newLearnings;
                   visitedUrls := visited ++ newUrls |}.
Proof.
  unfold branch_try. intros H.
  bind_inv H. bind_inv H. bind_inv H.
  eexists _, _.
  destruct (0 <? depth - 1).
  - bind_inv H. bind_inv H. bind_inv H. by injection H as <- <-.
  - bind_inv H. bind_inv H. by injection H as <- <-.
Qed.

End branch_properties.

(** ** Invocations *)

Lemma deepResearch_S E fuel query breadth depth known visited onProgress :
  deepResearch E (S fuel) query breadth depth known visited onProgress
  = (do started <- prologue E query breadth depth known onProgress;
     do results <- fan_out E (deepResearch E fuel) (fst started) breadth depth
                     known visited onProgress (snd started);
     ret (aggregate results)).
Proof. reflexivity. Qed.

(** An invocation whose prologue and branches return, returns the aggregate
    of the branches' results. *)
Lemma deepResearch_returns_aggregate E fuel query breadth depth known visited
    onProgress s progress serpQueries s0 results s1 :
  prologue E query breadth depth known onProgress s
  = (Return (progress, serpQueries), s0) ->
  fan_out E (deepResearch E fuel) progress breadth depth known visited
    onProgress serpQueries s0 = (Return results, s1) ->
  deepResearch E (S fuel) query breadth depth known visited onProgress s
  = (Return (aggregate results), s1).
Proof.
  intros Hprologue Hfan. rewrite deepResearch_S.
  rewrite (bind_Return _ _ _ _ _ Hprologue). simpl fst. simpl snd.
  by rewrite (bind_Return _ _ _ _ _ Hfan).
Qed.

(** Whatever an invocation returns holds no learning twice and no source
    object twice. *)
Lemma deepResearch_returns_distinct E fuel query breadth depth known visited
    onProgress s r s' :
  deepResearch E fuel query breadth depth known visited onProgress s
  = (Return r, s') ->
  NoDup (learnings r) /\ NoDup (ref <$> visitedUrls r).
Proof.
  destruct fuel as [| fuel]; [done |]. rewrite deepResearch_S. intros H.
  bind_inv H. bind_inv H. injection H as <- <-.
  split; [apply aggregate_learnings_NoDup | apply aggregate_visitedUrls_NoDup].
Qed.

(** X15: when the search call of one query branch, or its call for
    learnings, fails with a value whose message the handler can test (a
    timeout included), that branch contributes the empty result and throws
    nothing; if the sibling branches of the invocation return, the
    invocation returns the aggregate of their results alone, which holds
    every learning and every source of every sibling. *)
Theorem branch_isolation E fuel query breadth depth known visited onProgress
    s progress before failing after s0 rs1 s1 e timeout :
  prologue E query breadth depth known onProgress s
  = (Return (progress, before ++ failing :: after), s0) ->
  fan_out E (deepResearch E fuel) progress breadth depth known visited
    onProgress before s0 = (Return rs1, s1) ->
  branch_call_fails E breadth failing s1 e ->
  is_timeout e = Fulfilled timeout ->
  exists s2,
    branch E (deepResearch E fuel) progress breadth depth known visited
      onProgress failing s1 = (Return empty_result, s2)
    /\ forall rs2 s3,
         fan_out E (deepResearch E fuel) progress breadth depth known visited
           onProgress after s2 = (Return rs2, s3) ->
         deepResearch E (S fuel) query breadth depth known visited onProgress s
         = (Return (aggregate (rs1 ++ rs2)), s3)
         /\ (forall r l, r ∈ rs1 ++ rs2 -> l ∈ learnings r ->
               l ∈ learnings (aggregate (rs1 ++ rs2)))
         /\ (forall r v, r ∈ rs1 ++ rs2 -> v ∈ visitedUrls r ->
               exists v', v' ∈ visitedUrls (aggregate (rs1 ++ rs2))
                          /\ ref v' = ref v).
Proof.
  intros Hprologue Hbefore Hfails Htest.
  destruct (branch_call_fails_empty E (deepResearch E fuel) progress breadth depth
              known visited onProgress failing s1 e timeout Hfails Htest)
    as [s2 Hbranch].
  exists s2. split; [exact Hbranch |].
  intros rs2 s3 Hafter. split; [| split].
  - rewrite <- aggregate_skip_empty.
    eapply deepResearch_returns_aggregate; [exact Hprologue |].
    unfold fan_out. eapply mapM_app_Return; [exact Hbefore |].
    eapply mapM_cons_Return; [exact Hbranch | exact Hafter].
  - intros r l Hr Hl. apply aggregate_learnings_elem. by exists r.
  - intros r v Hr Hv. by eapply aggregate_visitedUrls_covers.
Qed.

Lemma branch_isolation_witness :
  branch_call_fails Demo.world 2 (Demo.serp "down")
    (snd (prologue Demo.world (js "flaky") 2 1 [] None initial))
    (Error (js "Timeout of 15000ms"))
  /\ fst (deepResearch Demo.world 1 (js "flaky") 2 1 [] [] None initial)
     = Return
         (aggregate
            ([] ++ [ {| learnings := [js "fact"];
                        visitedUrls :=
                          [ {| ref := 0; url := js "https://a.example";
                               summary := js "Example" |} ] |} ])).
Proof.
  assert (branch_call_fails Demo.world 2 (Demo.serp "down")
            (snd (prologue Demo.world (js "flaky") 2 1 [] None initial))
            (Error (js "Timeout of 15000ms"))) as Hfails.
  { apply search_fails. vm_compute. reflexivity. }
  split; [exact Hfails |].
  destruct (branch_isolation Demo.world 0 (js "flaky") 2 1 [] [] None initial 0
              [] (Demo.serp "down") [Demo.serp "alpha"]
              (snd (prologue Demo.world (js "flaky") 2 1 [] None initial)) []
              (snd (prologue Demo.world (js "flaky") 2 1 [] None initial))
              (Error (js "Timeout of 15000ms")) true)
    as (s2 & Hbranch & Hsiblings);
    [vm_compute; reflexivity | reflexivity | exact Hfails | vm_compute; reflexivity |].
  vm_compute in Hbranch. injection Hbranch as <-.
  destruct (Hsiblings
              [ {| learnings := [js "fact"];
                   visitedUrls :=
                     [ {| ref := 0; url := js "https://a.example";
                          summary := js "Example" |} ] |} ]
              (snd (deepResearch Demo.world 1 (js "flaky") 2 1 [] [] None initial)))
    as (Hrun & _); [vm_compute; reflexivity |].
  rewrite Hrun. reflexivity.
Defined.

(** On the scripted world: the branch of the query whose search times out
    contributes nothing, the invocation returns what its sibling found. *)
Example timed_out_branch_run :
  fst (deepResearch Demo.world 1 (js "flaky") 2 1 [] [] None initial)
  = Return
      {| learnings := [js "fact"];
         visitedUrls :=
           [ {| ref := 0; url := js "https://a.example"; summary := js "Example" |} ] |}.
Proof. vm_compute. reflexivity. Qed.

(** The same when the page a search returns holds a special token: the
    summary falls back to the truncated markdown, [processSerpResult] throws
    what the tokenizer throws before it calls the model, and the handler of
    the branch turns that into the empty result. *)
Example special_token_branch_run :
  ~ (CallGenerateLearnings (js "marked") [js "<|endoftext|>"] 3 1
     ∈ events (snd (deepResearch Demo.world 1 (js "tainted") 2 1 [] [] None initial)))
  /\ Log (LogError (js "marked") Demo.special_token)
       ∈ events (snd (deepResearch Demo.world 1 (js "tainted") 2 1 [] [] None initial))
  /\ fst (deepResearch Demo.world 1 (js "tainted") 2 1 [] [] None initial)
     = Return
         {| learnings := [js "fact"];
            visitedUrls :=
              [ {| ref := 1; url := js "https://a.example"; summary := js "Example" |} ] |}.
Proof.
  split; [| split; [| vm_compute; reflexivity]].
  - intros Hin. apply list_elem_of_In in Hin. vm_compute in Hin.
    repeat (destruct Hin as [Hin | Hin]; [discriminate Hin |]). exact Hin.
  - apply list_elem_of_In. vm_compute. tauto.
Qed.

(** A failing summary call does not empty its branch: it is a generation
    call with a handler of its own, and the branch still contributes a
    learning and a source, the latter with the truncated markdown as its
    summary. *)
Example summary_failure_keeps_branch :
  generate_summary Demo.world (js "text") = Rejected (Error (js "no summary model"))
  /\ CallGenerateSummary (js "text")
       ∈ events (snd (deepResearch Demo.world 1 (js "bare") 1 1 [] [] None initial))
  /\ fst (deepResearch Demo.world 1 (js "bare") 1 1 [] [] None initial)
     = Return
         {| learnings := [js "fact"];
            visitedUrls :=
              [ {| ref := 0; url := js "https://b.example"; summary := js "text" |} ] |}.
Proof.
  split; [reflexivity |]. split; [| vm_compute; reflexivity].
  apply list_elem_of_In. vm_compute. tauto.
Qed.

(** C3 (the code departs from it): breadth 1, depth 2.  The branch of the
    only query searches and extracts, and its [try] block returns the
    recursive call without awaiting it; the query generation of that call
    fails, and its rejection, which the handler of the branch would have
    turned into the empty result had the call been awaited, leaves the top
    invocation. *)
Theorem subcall_rejection_escapes :
  fst (branch_try Demo.world 0 1 2 [] [] None
         {| sq_query := js "alpha"; researchGoal := js "unanswerable" |}
         (snd (prologue Demo.world (js "fragile") 1 2 [] None initial)))
  = Return
      (Returned_call
         (nextQuery_of {| sq_query := js "alpha"; researchGoal := js "unanswerable" |}
            {| pr_learnings := [js "fact"]; followUpQuestions := [js "next"] |})
         1 1 [js "fact"]
         [ {| ref := 0; url := js "https://a.example"; summary := js "Example" |} ])
  /\ generate_queries Demo.world
       (nextQuery_of {| sq_query := js "alpha"; researchGoal := js "unanswerable" |}
          {| pr_learnings := [js "fact"]; followUpQuestions := [js "next"] |})
       [js "fact"] 1
     = Rejected (Error (js "no model"))
  /\ fst (deepResearch Demo.world 2 (js "fragile") 1 2 [] [] None initial)
     = Throw (Error (js "no model")).
Proof. repeat split; vm_compute; reflexivity. Qed.

(** A rejection with [undefined] is not isolated either: the test of the
    handler reads the message of the thrown value, that throws a
    [TypeError], and the [TypeError] leaves the branch and the invocation,
    although the sibling branch would have succeeded. *)
Example handler_failure_escapes :
  firecrawl_search Demo.world (js "void") = Rejected Undefined
  /\ fst (deepResearch Demo.world 1 (js "hollow") 2 1 [] [] None initial)
     = Throw TypeError_undefined.
Proof. split; vm_compute; reflexivity. Qed.

(** C10: in an invocation of depth at least 2, a branch whose search and
    extraction succeed returns the recursive call, made on the learnings and
    sources carried forward plus those the branch extracted; what the
    sub-call returns is the whole contribution of the branch.  So when every
    branch of the sub-call fails (each contributes the empty result), the
    contribution of the branch is the empty result: none of the learnings and
    sources it extracted or carried forward is in it. *)
Theorem subcall_replaces_contribution E fuel progress breadth depth known
    visited onProgress serpQuery s c s1 :
  2 <= depth ->
  branch_try E progress breadth depth known visited onProgress serpQuery s
  = (Return c, s1) ->
  exists query' newLearnings newUrls,
    c = Returned_call query' (ceil_half breadth) (depth - 1)
          (known ++ newLearnings) (visited ++ newUrls)
    /\ branch E (deepResearch E (S fuel)) progress breadth depth known visited
         onProgress serpQuery s
       = deepResearch E (S fuel) query' (ceil_half breadth) (depth - 1)
           (known ++ newLearnings) (visited ++ newUrls) onProgress s1
    /\ forall progress' serpQueries' s1' results' s2,
         prologue E query' (ceil_half breadth) (depth - 1)
           (known ++ newLearnings) onProgress s1
         = (Return (progress', serpQueries'), s1') ->
         fan_out E (deepResearch E fuel) progress' (ceil_half breadth) (depth - 1)
           (known ++ newLearnings) (visited ++ newUrls) onProgress
           serpQueries' s1' = (Return results', s2) ->
         Forall (fun r => r = empty_result) results' ->
         branch E (deepResearch E (S fuel)) progress breadth depth known visited
           onProgress serpQuery s = (Return empty_result, s2).
Proof.
  intros Hdepth Htry.
  destruct (branch_try_completion E progress breadth depth known visited
              onProgress serpQuery s c s1 Htry) as (newLearnings & newUrls & Hc).
  destruct (Z.ltb_spec 0 (depth - 1)) as [_ | ?]; [| lia]. subst c.
  assert (branch E (deepResearch E (S fuel)) progress breadth depth known visited
            onProgress serpQuery s
          = deepResearch E (S fuel) (nextQuery_of serpQuery newLearnings)
              (ceil_half breadth) (depth - 1)
              (known ++ pr_learnings newLearnings) (visited ++ newUrls)
              onProgress s1) as Hbranch.
  { unfold branch.
    erewrite bind_Return by (apply try_catch_Return; exact Htry).
    reflexivity. }
  eexists _, _, _. split; [reflexivity |]. split; [exact Hbranch |].
  intros progress' serpQueries' s1' results' s2 Hprologue Hfan Hall.
  rewrite Hbranch, <- (aggregate_all_empty results' Hall).
  by eapply deepResearch_returns_aggregate.
Qed.

Lemma subcall_replaces_contribution_witness :
  fst (branch Demo.world (deepResearch Demo.world 1) 0 2 2 [js "old"] [] None
         (Demo.serp "alpha")
         (snd (prologue Demo.world (js "topic") 2 2 [js "old"] None initial)))
  = Return empty_result.
Proof.
  destruct (subcall_replaces_contribution Demo.world 0 0 2 2 [js "old"] [] None
              (Demo.serp "alpha")
              (snd (prologue Demo.world (js "topic") 2 2 [js "old"] None initial))
              (Returned_call
                 (nextQuery_of (Demo.serp "alpha")
                    {| pr_learnings := [js "fact"];
                       followUpQuestions := [js "next"] |})
                 1 1 [js "old"; js "fact"]
                 [ {| ref := 0; url := js "https://a.example";
                      summary := js "Example" |} ])
              (snd (branch_try Demo.world 0 2 2 [js "old"] [] None
                      (Demo.serp "alpha")
                      (snd (prologue Demo.world (js "topic") 2 2 [js "old"] None
                              initial)))))
    as (query' & newLearnings & newUrls & Hc & _ & Hempty);
    [lia | vm_compute; reflexivity |].
  injection Hc as <- <- <-.
  erewrite Hempty; [reflexivity | | | ].
  - vm_compute. reflexivity.
  - vm_compute. reflexivity.
  - repeat constructor.
Defined.

(** On the scripted world, depth 2: both branches extract a learning and a
    source, both sub-calls see their only search time out, and the
    invocation returns nothing, not even the learning it was given. *)
Example depth_two_returns_nothing :
  fst (deepResearch Demo.world 2 (js "topic") 2 2 [js "old"] [] None initial)
  = Return empty_result.
Proof. vm_compute. reflexivity. Qed.

(** ** Termination *)

Lemma no_diverge_ret {A} (a : A) : no_diverge (ret a).
Proof. by intros s. Qed.

Lemma no_diverge_throw {A} e : no_diverge (throw (A := A) e).
Proof. by intros s. Qed.

Lemma no_diverge_bind {A B} (m : M A) (k : A -> M B) :
  no_diverge m -> (forall a, no_diverge (k a)) -> no_diverge (bind m k).
Proof.
  intros Hm Hk s. unfold bind. specialize (Hm s).
  destruct (m s) as [[a | e | ] s1]; [apply Hk | done | done].
Qed.



Lemma no_diverge_emit ev : no_diverge (emit ev).
Proof. by intros s. Qed.

Lemma no_diverge_log entry : no_diverge (log entry).
Proof. by intros s. Qed.

Lemma no_diverge_await_call {A} ev (r : settled A) : no_diverge (await_call ev r).
Proof. intros s. by destruct r. Qed.

Lemma no_diverge_fresh_ref : no_diverge fresh_ref.
Proof. by intros s. Qed.

Lemma no_diverge_new_progress p : no_diverge (new_progress p).
Proof. by intros s. Qed.

Lemma no_diverge_read_progress progress : no_diverge (read_progress progress).
Proof. by intros s. Qed.

Lemma no_diverge_update_progress progress f : no_diverge (update_progress progress f).
Proof. by intros s. Qed.

Lemma no_diverge_reportProgress progress onProgress update :
  no_diverge (reportProgress progress onProgress update).
Proof.
  unfold reportProgress.
  apply no_diverge_bind; [apply no_diverge_update_progress |]. intros _.
  destruct onProgress; [| apply no_diverge_ret].
  apply no_diverge_bind; [apply no_diverge_read_progress |]. intros p.
  apply no_diverge_await_call.
Qed.

Lemma no_diverge_trimPrompt E prompt contextSize :
  splitter_no_growth E -> no_diverge (run_sync (trimPrompt E prompt contextSize)).
Proof.
  intros Hsplit.
  destruct (trimPrompt_terminates_within E prompt contextSize Hsplit) as [out ->].
  intros s. by destruct out.
Qed.

Create HintDb diverge.

#[local] Hint Resolve no_diverge_ret no_diverge_throw no_diverge_emit
  no_diverge_log no_diverge_await_call no_diverge_fresh_ref
  no_diverge_new_progress no_diverge_read_progress no_diverge_update_progress
  no_diverge_reportProgress no_diverge_trimPrompt : diverge.


Section termination.

Context (E : externals) (Hsplit : splitter_no_growth E).










End termination.



(** ** Progress objects *)

(** What an invocation does once its progress object is built. *)
Lemma deepResearch_after_new_progress E fuel query breadth depth known visited
    onProgress s :
  deepResearch E (S fuel) query breadth depth known visited onProgress s
  = (do serpQueries <- generateSerpQueries E query breadth known;
     reportProgress (length (progresses s)) onProgress
       {| set_currentDepth := None;
          set_currentBreadth := None;
          set_currentQuery := Some (sq_query <$> head serpQueries);
          set_totalQueries := Some (Z.of_nat (length serpQueries));
          set_completedQueries := None |};;
     do results <- fan_out E (deepResearch E fuel) (length (progresses s))
                     breadth depth known visited onProgress serpQueries;
     ret (aggregate results))
    (snd (new_progress
            {| currentDepth := depth; totalDepth := depth;
               currentBreadth := breadth; totalBreadth := breadth;
               currentQuery := None; totalQueries := 0; completedQueries := 0 |} s)).
Proof.
  rewrite deepResearch_S. unfold prologue, new_progress, bind, ret.
  cbv beta iota. simpl snd.
  destruct (generateSerpQueries E query breadth known _) as [[qs | e | ] s1];
    [| done | done].
  destruct (reportProgress _ _ _ s1) as [[[] | e | ] s2]; done.
Qed.

Section preservation.

Context (R : relation state).
Context (R_trans : Transitive R).
Context (R_store : forall s s', progresses s' = progresses s -> R s s').
(** The progress objects that [reportProgress] may be applied to. *)
Context (reportable : nat -> Prop).
Context (R_report : forall progress onProgress update,
            reportable progress ->
            preserves R (reportProgress progress onProgress update)).

Lemma preserves_ret {A} (a : A) : preserves R (ret a).
Proof. intros s. by apply R_store. Qed.

Lemma preserves_throw {A} e : preserves R (throw (A := A) e).
Proof. intros s. by apply R_store. Qed.

Lemma preserves_bind {A B} (m : M A) (k : A -> M B) :
  preserves R m -> (forall a, preserves R (k a)) -> preserves R (bind m k).
Proof.
  intros Hm Hk s. unfold bind. specialize (Hm s).
  destruct (m s) as [[a | e | ] s1]; simpl in *; [| done | done].
  etrans; [exact Hm | apply Hk].
Qed.

Lemma preserves_try_catch {A} (body : M A) handler :
  preserves R body -> (forall e, preserves R (handler e)) ->
  preserves R (try_catch body handler).
Proof.
  intros Hbody Hhandler s. unfold try_catch. specialize (Hbody s).
  destruct (body s) as [[a | e | ] s1]; simpl in *; [done | | done].
  etrans; [exact Hbody | apply Hhandler].
Qed.

Lemma preserves_mapM {A B} (f : A -> M B) l :
  (forall x, preserves R (f x)) -> preserves R (mapM f l).
Proof.
  intros Hf. induction l as [| x l IH]; simpl; [apply preserves_ret |].
  apply preserves_bind; [apply Hf |]. intros y.
  apply preserves_bind; [apply IH |]. intros ys. apply preserves_ret.
Qed.

Lemma preserves_emit ev : preserves R (emit ev).
Proof. intros s. by apply R_store. Qed.

Lemma preserves_log entry : preserves R (log entry).
Proof. apply preserves_emit. Qed.

Lemma preserves_await_call {A} ev (r : settled A) : preserves R (await_call ev r).
Proof. intros s. apply R_store. by destruct r. Qed.

Lemma preserves_sync {A} (r : settled A) : preserves R (sync r).
Proof. intros s. apply R_store. by destruct r. Qed.

Lemma preserves_run_sync {A} (r : option (settled A)) : preserves R (run_sync r).
Proof. intros s. apply R_store. by destruct r as [[] |]. Qed.

Lemma preserves_fresh_ref : preserves R fresh_ref.
Proof. intros s. by apply R_store. Qed.

Lemma preserves_read_progress progress : preserves R (read_progress progress).
Proof. intros s. by apply R_store. Qed.

(** Split a sequence of steps into its steps, closing those that keep the
    progress objects. *)
Ltac preserves_steps :=
  repeat first
    [ solve [auto using preserves_ret, preserves_throw, preserves_emit,
               preserves_log, preserves_await_call, preserves_sync, preserves_run_sync,
               preserves_fresh_ref, preserves_read_progress]
    | apply preserves_try_catch; [| intros ?]
    | apply preserves_mapM; intros ?
    | apply preserves_bind; [| intros ?]
    | progress cbv beta zeta ].

Lemma preserves_selectSummary E item item_url_ :
  preserves R (selectSummary E item item_url_).
Proof.
  unfold selectSummary.
  destruct (usable (metadata_title item)); [preserves_steps |].
  destruct (usable (metadata_description item)); [preserves_steps |].
  destruct (item_markdown item) as [[| c markdown] |]; preserves_steps.
Qed.

Lemma preserves_newUrl E item : preserves R (newUrl E item).
Proof.
  unfold newUrl. destruct (item_url item) as [u |]; [| preserves_steps].
  destruct (falsy u); [preserves_steps |].
  apply preserves_bind; [apply preserves_selectSummary |]. intros chain.
  preserves_steps.
Qed.

Lemma preserves_processSerpResult E query result numLearnings numFollowUpQuestions :
  preserves R (processSerpResult E query result numLearnings numFollowUpQuestions).
Proof. unfold processSerpResult. preserves_steps. Qed.

Lemma preserves_generateSerpQueries E query numQueries known :
  preserves R (generateSerpQueries E query numQueries known).
Proof. unfold generateSerpQueries. preserves_steps. Qed.

Lemma preserves_branch_try E progress breadth depth known visited onProgress
    serpQuery :
  reportable progress ->
  preserves R (branch_try E progress breadth depth known visited onProgress
                 serpQuery).
Proof.
  intros Hprogress. unfold branch_try.
  apply preserves_bind; [preserves_steps |]. intros result.
  apply preserves_bind; [apply preserves_mapM, preserves_newUrl |]. intros sources.
  apply preserves_bind; [apply preserves_processSerpResult |]. intros newLearnings.
  destruct (0 <? depth - 1).
  - apply preserves_bind; [preserves_steps |]. intros _.
    apply preserves_bind; [preserves_steps |]. intros p.
    apply preserves_bind; [by apply R_report | intros _; preserves_steps].
  - apply preserves_bind; [preserves_steps |]. intros p.
    apply preserves_bind; [by apply R_report | intros _; preserves_steps].
Qed.

Lemma preserves_branch_catch serpQuery e : preserves R (branch_catch serpQuery e).
Proof.
  unfold branch_catch.
  apply preserves_bind; [apply preserves_sync |]. intros []; preserves_steps.
Qed.

Lemma preserves_branch E recurse progress breadth depth known visited onProgress
    serpQuery :
  reportable progress ->
  (forall query breadth' depth' known' visited',
      preserves R (recurse query breadth' depth' known' visited' onProgress)) ->
  preserves R (branch E recurse progress breadth depth known visited onProgress
                 serpQuery).
Proof.
  intros Hprogress Hrecurse. unfold branch.
  apply preserves_bind.
  - apply preserves_try_catch; [by apply preserves_branch_try |].
    intros e. apply preserves_branch_catch.
  - intros [result | query breadth' depth' known' visited'];
      [apply preserves_ret | apply Hrecurse].
Qed.

(** The part of an invocation that follows the building of its progress
    object. *)
Lemma preserves_invocation E recurse progress query breadth depth known visited
    onProgress :
  reportable progress ->
  (forall query breadth' depth' known' visited',
      preserves R (recurse query breadth' depth' known' visited' onProgress)) ->
  preserves R
    (do serpQueries <- generateSerpQueries E query breadth known;
     reportProgress progress onProgress
       {| set_currentDepth := None;
          set_currentBreadth := None;
          set_currentQuery := Some (sq_query <$> head serpQueries);
          set_totalQueries := Some (Z.of_nat (length serpQueries));
          set_completedQueries := None |};;
     do results <- fan_out E recurse progress breadth depth known visited
                     onProgress serpQueries;
     ret (aggregate results)).
Proof.
  intros Hprogress Hrecurse.
  apply preserves_bind; [apply preserves_generateSerpQueries |]. intros serpQueries.
  apply preserves_bind; [by apply R_report |]. intros _.
  apply preserves_bind; [| intros results; apply preserves_ret].
  unfold fan_out. apply preserves_mapM. intros serpQuery.
  by apply preserves_branch.
Qed.

End preservation.

#[local] Instance frame_trans n : Transitive (frame n).
Proof.
  intros a b c Hab Hbc Hn.
  destruct (Hab Hn) as [Hlen1 Hsame1].
  destruct Hbc as [Hlen2 Hsame2]; [lia |].
  split; [lia |]. intros i Hi. by rewrite Hsame2, Hsame1.
Qed.

Lemma frame_store n s s' : progresses s' = progresses s -> frame n s s'.
Proof. intros Heq _. by rewrite Heq. Qed.

(** [reportProgress] changes the one object it is applied to. *)
Lemma frame_reportProgress n progress onProgress update :
  (n <= progress)%nat ->
  preserves (frame n) (reportProgress progress onProgress update).
Proof.
  intros Hprogress. unfold reportProgress.
  apply preserves_bind; [apply _ | |].
  - intros s _. simpl. split; [by rewrite length_alter |].
    intros i Hi. apply list_lookup_alter_ne. lia.
  - intros _. destruct onProgress as [notify |].
    + apply preserves_bind; [apply _ | |].
      * apply preserves_read_progress, frame_store.
      * intros p. apply preserves_await_call, frame_store.
    + apply preserves_ret, frame_store.
Qed.

#[local] Instance totals_kept_trans : Transitive totals_kept.
Proof.
  intros a b c Hab Hbc i p Hp.
  destruct (Hab i p Hp) as (p' & Hp' & Hd & Hb).
  destruct (Hbc i p' Hp') as (p'' & Hp'' & Hd' & Hb').
  exists p''. split; [done |]. split; congruence.
Qed.

Lemma totals_kept_store s s' : progresses s' = progresses s -> totals_kept s s'.
Proof. intros Heq i p Hp. exists p. by rewrite Heq. Qed.

(** [reportProgress] merges an update that has no total in it. *)
Lemma totals_kept_reportProgress progress onProgress update :
  preserves totals_kept (reportProgress progress onProgress update).
Proof.
  unfold reportProgress.
  apply preserves_bind; [apply _ | |].
  - intros s i p Hp. simpl.
    destruct (decide (progress = i)) as [-> | Hne].
    + exists (Object_assign p update). rewrite list_lookup_alter, Hp.
      case_decide; done.
    + exists p. rewrite list_lookup_alter_ne by done. done.
  - intros _. destruct onProgress as [notify |].
    + apply preserves_bind; [apply _ | |].
      * apply preserves_read_progress, totals_kept_store.
      * intros p. apply preserves_await_call, totals_kept_store.
    + apply preserves_ret, totals_kept_store.
Qed.

#[local] Instance same_progresses_trans : Transitive same_progresses.
Proof. intros a b c Hab Hbc. unfold same_progresses in *. congruence. Qed.

Lemma same_progresses_store s s' :
  progresses s' = progresses s -> same_progresses s s'.
Proof. done. Qed.

(** No invocation touches a progress object that existed when it started. *)
Lemma frame_deepResearch E n fuel :
  forall query breadth depth known visited onProgress,
    preserves (frame n)
      (deepResearch E fuel query breadth depth known visited onProgress).
Proof.
  induction fuel as [| fuel IH]; intros query breadth depth known visited onProgress s.
  - by apply frame_store.
  - intros Hn. generalize Hn.
    change (frame n s
      (snd (deepResearch E (S fuel) query breadth depth known visited onProgress s))).
    rewrite deepResearch_after_new_progress.
    etrans; [| apply (preserves_invocation (frame n) _ (frame_store n)
                        (fun progress => (n <= progress)%nat))].
    + intros _. simpl. rewrite length_app. split; [lia |].
      intros i Hi. apply lookup_app_l. lia.
    + intros progress onProgress' update Hprogress.
      by apply frame_reportProgress.
    + exact Hn.
    + intros. apply IH.
Qed.

(** No invocation changes the totals of a progress object. *)
Lemma totals_kept_deepResearch E fuel :
  forall query breadth depth known visited onProgress,
    preserves totals_kept
      (deepResearch E fuel query breadth depth known visited onProgress).
Proof.
  induction fuel as [| fuel IH]; intros query breadth depth known visited onProgress s.
  - by apply totals_kept_store.
  - rewrite deepResearch_after_new_progress.
    etrans; [| apply (preserves_invocation totals_kept _ totals_kept_store
                        (fun _ => True))].
    + intros i p Hp. exists p. simpl. split; [| done].
      by apply lookup_app_l_Some.
    + intros progress onProgress' update _. apply totals_kept_reportProgress.
    + done.
    + intros. apply IH.
Qed.

(** C7, as amended: every invocation of [deepResearch], a recursive one
    included, builds a progress object of its own from its own depth and
    breadth; it is the observer that is passed to the recursive calls, not the
    progress object.  The object of an invocation keeps the totals it was
    built with (it is updated by merging, never replaced), and no invocation
    changes a progress object that existed when it started, so a recursive
    call leaves the object of its caller as it was. *)
Theorem progress_object_per_invocation E fuel query breadth depth known visited
    onProgress s :
  (forall i p,
      progresses s !! i = Some p ->
      progresses (snd (deepResearch E (S fuel) query breadth depth known visited
                         onProgress s)) !! i = Some p)
  /\ exists p,
       progresses (snd (deepResearch E (S fuel) query breadth depth known visited
                          onProgress s)) !! length (progresses s) = Some p
       /\ totalDepth p = depth
       /\ totalBreadth p = breadth.
Proof.
  split.
  - intros i p Hp.
    destruct (frame_deepResearch E (length (progresses s)) (S fuel) query breadth
                depth known visited onProgress s) as [_ Hsame]; [done |].
    rewrite Hsame; [done |]. by eapply lookup_lt_Some.
  - rewrite deepResearch_after_new_progress.
    destruct (preserves_invocation totals_kept _ totals_kept_store (fun _ => True)
                (fun progress onProgress' update _ =>
                   totals_kept_reportProgress progress onProgress' update)
                E (deepResearch E fuel) (length (progresses s)) query breadth depth
                known visited onProgress I
                (fun query' breadth' depth' known' visited' =>
                   totals_kept_deepResearch E fuel query' breadth' depth' known'
                     visited' onProgress)
                (snd (new_progress
                        {| currentDepth := depth; totalDepth := depth;
                           currentBreadth := breadth; totalBreadth := breadth;
                           currentQuery := None; totalQueries := 0;
                           completedQueries := 0 |} s))
                (length (progresses s))
                {| currentDepth := depth; totalDepth := depth;
                   currentBreadth := breadth; totalBreadth := breadth;
                   currentQuery := None; totalQueries := 0;
                   completedQueries := 0 |})
      as (p' & Hp' & Hd & Hb).
    + simpl. by apply list_lookup_middle.
    + by exists p'.
Qed.

(** C7 fails as stated: at depth 2 each of the two recursive calls builds a
    progress object of its own (three objects in all), and the observer is
    notified by a recursive call with its object, whose totals are those of
    the recursive call, not with the object of the top-level call. *)
Lemma recursive_call_builds_its_own_progress :
  length (progresses (snd (deepResearch Demo.world 2 (js "topic") 2 2 [] []
                             (Some Demo.quiet) initial))) = 3%nat
  /\ CallOnProgress 0
       {| currentDepth := 2; totalDepth := 2; currentBreadth := 2;
          totalBreadth := 2; currentQuery := Some (js "alpha");
          totalQueries := 2; completedQueries := 0 |}
     ∈ events (snd (deepResearch Demo.world 2 (js "topic") 2 2 [] []
                      (Some Demo.quiet) initial))
  /\ CallOnProgress 1
       {| currentDepth := 1; totalDepth := 1; currentBreadth := 1;
          totalBreadth := 1; currentQuery := Some (js "down");
          totalQueries := 1; completedQueries := 0 |}
     ∈ events (snd (deepResearch Demo.world 2 (js "topic") 2 2 [] []
                      (Some Demo.quiet) initial)).
Proof.
  split; [vm_compute; reflexivity |].
  split; apply list_elem_of_In; vm_compute; tauto.
Qed.

(** ** The depth bound is reached *)

Lemma steady_branch_try_returns progress breadth depth known visited serpQuery s :
  exists c s1,
    branch_try Demo.steady progress breadth depth known visited None serpQuery s
    = (Return c, s1).
Proof.
  unfold branch_try.
  erewrite bind_Return by reflexivity.
  erewrite bind_Return by reflexivity.
  erewrite bind_Return by reflexivity.
  destruct (0 <? depth - 1); eexists _, _; reflexivity.
Qed.

(** In the world in which every call succeeds, an invocation of depth
    [n + 1] is not over within [n] nested invocations: with the bound of C5,
    it takes exactly [n + 1]. *)
Lemma steady_needs_depth_levels n :
  forall query known visited s,
    fst (deepResearch Demo.steady n query 1 (Z.of_nat n + 1) known visited None s)
    = Diverge.
Proof.
  induction n as [| n IH]; intros query known visited s; [reflexivity |].
  rewrite deepResearch_S.
  erewrite bind_Return by reflexivity. simpl fst. simpl snd.
  unfold fan_out. simpl mapM.
  match goal with
  | |- fst (bind (bind (branch ?E ?rec ?p ?b ?d ?k ?v ?o ?q) _) _ ?s0) = _ =>
      destruct (steady_branch_try_returns p b d k v q s0) as (c & s1 & Htry);
      destruct (branch_try_completion E p b d k v o q s0 c s1 Htry)
        as (newLearnings & newUrls & Hc);
      assert (exists s2, branch E rec p b d k v o q s0 = (Diverge, s2)) as [s2 Hbranch]
  end.
  { destruct (Z.ltb_spec 0 (Z.of_nat (S n) + 1 - 1)); [| lia]. subst c.
    unfold branch. erewrite bind_Return by (apply try_catch_Return; exact Htry).
    replace (Z.of_nat (S n) + 1 - 1) with (Z.of_nat n + 1) by lia.
    specialize (IH (nextQuery_of (Demo.serp "alpha") newLearnings)
                  (known ++ pr_learnings newLearnings) (visited ++ newUrls) s1).
    change (ceil_half 1) with 1.
    destruct (deepResearch Demo.steady n _ 1 (Z.of_nat n + 1) _ _ None s1)
      as [o s2]. simpl in IH. subst o. by exists s2. }
  erewrite bind_Diverge; [reflexivity |].
  erewrite bind_Diverge; [reflexivity | exact Hbranch].
Qed.

Lemma Demo_steady_no_growth : splitter_no_growth Demo.steady.
Proof. intros chunkSize t. simpl. rewrite length_take. lia. Qed.

Example steady_takes_exactly_depth_levels :
  fst (deepResearch Demo.steady 2 (js "topic") 1 3 [] [] None initial) = Diverge
  /\ fst (deepResearch Demo.steady 3 (js "topic") 1 3 [] [] None initial)
     = Return
         {| learnings := [js "fact"];
            visitedUrls :=
              [ {| ref := 0; url := js "https://a.example"; summary := js "Example" |};
                {| ref := 1; url := js "https://a.example"; summary := js "Example" |};
                {| ref := 2; url := js "https://a.example"; summary := js "Example" |} ] |}.
Proof. split; [exact (steady_needs_depth_levels 2 _ _ _ _) | vm_compute; reflexivity]. Qed.

(** ** An observer that returns *)

Lemma agree_ret {A} (a : A) : agree (ret a) (ret a).
Proof. by intros s1 s2 H. Qed.

Lemma agree_bind {A B} (m1 m2 : M A) (k1 k2 : A -> M B) :
  agree m1 m2 -> (forall a, agree (k1 a) (k2 a)) -> agree (bind m1 k1) (bind m2 k2).
Proof.
  intros Hm Hk s1 s2 Hs. unfold bind. destruct (Hm s1 s2 Hs) as [Hfst Hsnd].
  destruct (m1 s1) as [o1 t1], (m2 s2) as [o2 t2]. simpl in *. subst o2.
  destruct o1 as [a | e | ]; [by apply Hk | done | done].
Qed.

Lemma agree_try_catch {A} (b1 b2 : M A) h1 h2 :
  agree b1 b2 -> (forall e, agree (h1 e) (h2 e)) ->
  agree (try_catch b1 h1) (try_catch b2 h2).
Proof.
  intros Hb Hh s1 s2 Hs. unfold try_catch. destruct (Hb s1 s2 Hs) as [Hfst Hsnd].
  destruct (b1 s1) as [o1 t1], (b2 s2) as [o2 t2]. simpl in *. subst o2.
  destruct o1 as [a | e | ]; [done | by apply Hh | done].
Qed.

Lemma agree_mapM {A B} (f1 f2 : A -> M B) l :
  (forall x, agree (f1 x) (f2 x)) -> agree (mapM f1 l) (mapM f2 l).
Proof.
  intros Hf. induction l as [| x l IH]; simpl; [apply agree_ret |].
  apply agree_bind; [apply Hf |]. intros y.
  apply agree_bind; [apply IH |]. intros ys. apply agree_ret.
Qed.

(** A computation whose outcome and objects depend on the objects of the
    state only agrees with itself. *)
Lemma agree_emit ev : agree (emit ev) (emit ev).
Proof. by intros s1 s2 H. Qed.

Lemma agree_await_call {A} ev (r : settled A) : agree (await_call ev r) (await_call ev r).
Proof. intros s1 s2 H. by destruct r. Qed.

Lemma agree_sync {A} (r : settled A) : agree (sync r) (sync r).
Proof. intros s1 s2 H. by destruct r. Qed.

Lemma agree_run_sync {A} (r : option (settled A)) : agree (run_sync r) (run_sync r).
Proof. intros s1 s2 H. by destruct r as [[] |]. Qed.

Lemma agree_fresh_ref : agree fresh_ref fresh_ref.
Proof. intros s1 s2 [Href Hprogress]. simpl. unfold same_objects. simpl. by rewrite Href. Qed.

Lemma agree_new_progress p : agree (new_progress p) (new_progress p).
Proof.
  intros s1 s2 [Href Hprogress]. unfold same_objects. simpl. by rewrite Hprogress.
Qed.

Lemma agree_read_progress progress : agree (read_progress progress) (read_progress progress).
Proof. intros s1 s2 [Href Hprogress]. simpl. by rewrite Hprogress. Qed.

(** Reporting to an observer that returns is reporting to none, as far as
    outcome and objects go. *)
Lemma agree_reportProgress progress notify update :
  (forall p, notify p = Fulfilled tt) ->
  agree (reportProgress progress (Some notify) update)
        (reportProgress progress None update).
Proof.
  intros Hnotify s1 s2 [Href Hprogress].
  unfold reportProgress, bind, update_progress, read_progress, await_call, bind,
    emit, ret, same_objects.
  simpl. rewrite Hnotify. simpl. by rewrite Href, Hprogress.
Qed.

Section observer_that_returns.

Context (E : externals) (notify : observer).
Context (Hnotify : forall p, notify p = Fulfilled tt).

Ltac agree_steps :=
  repeat first
    [ solve [auto using agree_ret, agree_emit, agree_await_call, agree_sync,
               agree_run_sync,
               agree_fresh_ref, agree_new_progress, agree_read_progress,
               agree_reportProgress]
    | apply agree_try_catch; [| intros ?]
    | apply agree_mapM; intros ?
    | apply agree_bind; [| intros ?]
    | progress cbv beta zeta
    | progress unfold log ].

Lemma agree_newUrl item : agree (newUrl E item) (newUrl E item).
Proof.
  unfold newUrl. destruct (item_url item) as [u |]; [| agree_steps].
  destruct (falsy u); [agree_steps |].
  apply agree_bind; [| intros chain; agree_steps].
  unfold selectSummary.
  destruct (usable (metadata_title item)); [agree_steps |].
  destruct (usable (metadata_description item)); [agree_steps |].
  destruct (item_markdown item) as [[| c markdown] |]; agree_steps.
Qed.

Lemma agree_branch_try progress breadth depth known visited serpQuery :
  agree (branch_try E progress breadth depth known visited (Some notify) serpQuery)
        (branch_try E progress breadth depth known visited None serpQuery).
Proof.
  unfold branch_try.
  apply agree_bind; [agree_steps |]. intros result.
  apply agree_bind; [apply agree_mapM, agree_newUrl |]. intros sources.
  apply agree_bind; [unfold processSerpResult; agree_steps |]. intros newLearnings.
  destruct (0 <? depth - 1); agree_steps.
Qed.

Lemma agree_branch recurse1 recurse2 progress breadth depth known visited serpQuery :
  (forall query breadth' depth' known' visited',
      agree (recurse1 query breadth' depth' known' visited' (Some notify))
            (recurse2 query breadth' depth' known' visited' None)) ->
  agree (branch E recurse1 progress breadth depth known visited (Some notify) serpQuery)
        (branch E recurse2 progress breadth depth known visited None serpQuery).
Proof.
  intros Hrecurse. unfold branch. apply agree_bind.
  - apply agree_try_catch; [apply agree_branch_try |].
    intros e. unfold branch_catch.
    apply agree_bind; [apply agree_sync |]. intros []; agree_steps.
  - intros [result | query breadth' depth' known' visited'];
      [apply agree_ret | apply Hrecurse].
Qed.

(** An observer that returns does not influence what [deepResearch]
    returns: the promise settles as it does without an observer. *)
Lemma observer_return_ignored fuel :
  forall query breadth depth known visited,
    agree (deepResearch E fuel query breadth depth known visited (Some notify))
          (deepResearch E fuel query breadth depth known visited None).
Proof.
  induction fuel as [| fuel IH]; intros query breadth depth known visited.
  - by intros s1 s2 H.
  - rewrite !deepResearch_S. apply agree_bind.
    + unfold prologue, generateSerpQueries. agree_steps.
    + intros [progress serpQueries]. apply agree_bind; [| intros; apply agree_ret].
      unfold fan_out. apply agree_mapM. intros serpQuery.
      apply agree_branch. intros. apply IH.
Qed.

End observer_that_returns.

(** ** An observer that throws *)

(** [reportProgress] notifies the observer with the merged object, and ends
    as the observer does. *)
Lemma reportProgress_notifies progress notify update s p :
  progresses s !! progress = Some p ->
  exists s',
    reportProgress progress (Some notify) update s
    = (match notify (Object_assign p update) with
       | Fulfilled _ => Return tt
       | Rejected e => Throw e
       end, s').
Proof.
  intros Hp.
  assert (alter (fun p => Object_assign p update) progress (progresses s) !! progress
          = Some (Object_assign p update)) as Halter
    by (rewrite list_lookup_alter, Hp; by case_decide).
  unfold reportProgress, bind, update_progress, read_progress, await_call, bind, emit.
  simpl. rewrite (list_lookup_total_correct _ _ _ Halter).
  destruct (notify _) as [[] | e]; eexists; reflexivity.
Qed.

(** Up to its report the [try] block of a branch does not call the observer
    and leaves the progress objects as they are: when the block returns
    without an observer, with an observer that throws at the report of the
    branch it throws what the observer throws. *)
Lemma branch_report_throws E progress breadth depth known visited notify
    serpQuery s p c s1 e :
  progresses s !! progress = Some p ->
  branch_try E progress breadth depth known visited None serpQuery s
  = (Return c, s1) ->
  notify (Object_assign p (branch_report breadth depth serpQuery p)) = Rejected e ->
  exists s2,
    branch_try E progress breadth depth known visited (Some notify) serpQuery s
    = (Throw e, s2).
Proof.
  intros Hp Htry Hnotify. unfold branch_try in *.
  bind_inv Htry. rewrite (bind_Return _ _ _ _ _ Hrun).
  pose proof (preserves_await_call same_progresses same_progresses_store
                (CallSearch (sq_query serpQuery))
                (firecrawl_search E (sq_query serpQuery)) s) as Hs1.
  rewrite Hrun in Hs1.
  bind_inv Htry. rewrite (bind_Return _ _ _ _ _ Hrun0).
  match type of Hrun0 with
  | mapM _ ?items ?st = _ =>
      pose proof (preserves_mapM same_progresses _ same_progresses_store
                    (newUrl E) items
                    (preserves_newUrl same_progresses _ same_progresses_store E) st)
        as Hs2
  end.
  rewrite Hrun0 in Hs2.
  bind_inv Htry. rewrite (bind_Return _ _ _ _ _ Hrun1).
  match type of Hrun1 with
  | processSerpResult _ ?q ?r ?n ?m ?st = _ =>
      pose proof (preserves_processSerpResult same_progresses _
                    same_progresses_store E q r n m st) as Hs3
  end.
  rewrite Hrun1 in Hs3.
  unfold same_progresses in *. simpl in Hs1, Hs2, Hs3.
  match type of Hrun1 with
  | _ = (_, ?st) => assert (progresses st !! progress = Some p) as Hp3 by congruence
  end.
  unfold branch_report in Hnotify.
  destruct (0 <? depth - 1).
  - erewrite bind_Return by reflexivity.
    erewrite bind_Return by reflexivity.
    simpl progresses. rewrite (list_lookup_total_correct _ _ _ Hp3).
    match goal with
    | |- context [bind (reportProgress ?l _ ?u) _ ?st] =>
        destruct (reportProgress_notifies l notify u st p Hp3) as [s' Hreport]
    end.
    rewrite Hnotify in Hreport. exists s'. by apply bind_Throw.
  - erewrite bind_Return by reflexivity.
    rewrite (list_lookup_total_correct _ _ _ Hp3).
    match goal with
    | |- context [bind (reportProgress ?l _ ?u) _ ?st] =>
        destruct (reportProgress_notifies l notify u st p Hp3) as [s' Hreport]
    end.
    rewrite Hnotify in Hreport. exists s'. by apply bind_Throw.
Qed.

(** C4, as amended: an exception of the observer is not contained.  Thrown
    at the report that follows the query generation, it leaves
    [deepResearch]; thrown at the report of a branch whose search and
    extraction succeeded, it is caught by the handler of the branch, which
    then contributes the empty result instead of what the branch found (or
    throws, when the thrown value is one whose message its test cannot
    read).  The observer is free to return on every other snapshot. *)
Theorem observer_failure_not_contained E notify e :
  (forall fuel query breadth depth known visited s proposed,
      generate_queries E query known breadth = Fulfilled proposed ->
      notify {| currentDepth := depth; totalDepth := depth;
                currentBreadth := breadth; totalBreadth := breadth;
                currentQuery := sq_query <$> head (slice0 breadth proposed);
                totalQueries := Z.of_nat (length (slice0 breadth proposed));
                completedQueries := 0 |} = Rejected e ->
      fst (deepResearch E (S fuel) query breadth depth known visited
             (Some notify) s) = Throw e)
  /\ (forall recurse progress breadth depth known visited serpQuery s p c s1,
        progresses s !! progress = Some p ->
        branch_try E progress breadth depth known visited None serpQuery s
        = (Return c, s1) ->
        notify (Object_assign p (branch_report breadth depth serpQuery p))
        = Rejected e ->
        exists s2,
          branch E recurse progress breadth depth known visited (Some notify)
            serpQuery s
          = (match is_timeout e with
             | Fulfilled _ => Return empty_result
             | Rejected e' => Throw e'
             end, s2)).
Proof.
  split.
  - intros fuel query breadth depth known visited s proposed Hgen Hnotify.
    rewrite deepResearch_after_new_progress.
    erewrite bind_Return by (apply generateSerpQueries_Fulfilled; exact Hgen).
    match goal with
    | |- context [bind (reportProgress ?l _ ?u) _ ?st] =>
        destruct (reportProgress_notifies l notify u st
                    {| currentDepth := depth; totalDepth := depth;
                       currentBreadth := breadth; totalBreadth := breadth;
                       currentQuery := None; totalQueries := 0;
                       completedQueries := 0 |}) as [s' Hreport];
          [simpl; by apply list_lookup_middle |]
    end.
    change (Object_assign _ _)
      with {| currentDepth := depth; totalDepth := depth;
              currentBreadth := breadth; totalBreadth := breadth;
              currentQuery := sq_query <$> head (slice0 breadth proposed);
              totalQueries := Z.of_nat (length (slice0 breadth proposed));
              completedQueries := 0 |} in Hreport.
    rewrite Hnotify in Hreport.
    by rewrite (bind_Throw _ _ _ _ _ Hreport).
  - intros recurse progress breadth depth known visited serpQuery s p c s1
      Hp Htry Hnotify.
    destruct (branch_report_throws E progress breadth depth known visited notify
                serpQuery s p c s1 e Hp Htry Hnotify) as [s' Hthrows].
    by eapply branch_thrown_outcome.
Qed.

Lemma observer_failure_not_contained_witness :
  fst (deepResearch Demo.world 1 (js "topic") 2 1 [] [] (Some Demo.angry) initial)
  = Throw (Error (js "observer"))
  /\ exists s2,
       branch Demo.world (deepResearch Demo.world 0) 0 2 1 [] []
         (Some Demo.impatient) (Demo.serp "alpha")
         (snd (prologue Demo.world (js "topic") 2 1 [] (Some Demo.impatient) initial))
       = (Return empty_result, s2).
Proof.
  split.
  - destruct (observer_failure_not_contained Demo.world Demo.angry
                (Error (js "observer"))) as [Hescapes _].
    apply (Hescapes 0%nat (js "topic") 2 1 [] [] initial
             [Demo.serp "alpha"; Demo.serp "beta"]);
      vm_compute; reflexivity.
  - destruct (observer_failure_not_contained Demo.world Demo.impatient
                (Error (js "observer"))) as [_ Hbranch].
    apply (Hbranch (deepResearch Demo.world 0) 0%nat 2 1 [] [] (Demo.serp "alpha")
             (snd (prologue Demo.world (js "topic") 2 1 [] (Some Demo.impatient)
                     initial))
             {| currentDepth := 1; totalDepth := 1; currentBreadth := 2;
                totalBreadth := 2; currentQuery := Some (js "alpha");
                totalQueries := 2; completedQueries := 0 |}
             (Value {| learnings := [js "fact"];
                       visitedUrls :=
                         [ {| ref := 0; url := js "https://a.example";
                              summary := js "Example" |} ] |})
             (snd (branch_try Demo.world 0 2 1 [] [] None (Demo.serp "alpha")
                     (snd (prologue Demo.world (js "topic") 2 1 []
                             (Some Demo.impatient) initial)))));
      vm_compute; reflexivity.
Defined.

(** C4 fails as stated: the invocation that returns two sources and a
    learning under an observer that returns is rejected with the exception
    of an observer that throws at its first report, and returns nothing
    under an observer that throws at the reports of the branches. *)
Lemma observer_exception_escapes :
  fst (deepResearch Demo.world 1 (js "topic") 2 1 [] [] (Some Demo.angry) initial)
  = Throw (Error (js "observer"))
  /\ fst (deepResearch Demo.world 1 (js "topic") 2 1 [] [] (Some Demo.impatient)
            initial)
     = Return empty_result
  /\ fst (deepResearch Demo.world 1 (js "topic") 2 1 [] [] (Some Demo.quiet) initial)
     = Return
         {| learnings := [js "fact"];
            visitedUrls :=
              [ {| ref := 0; url := js "https://a.example"; summary := js "Example" |};
                {| ref := 1; url := js "https://a.example"; summary := js "Example" |} ] |}.
Proof. repeat split; vm_compute; reflexivity. Qed.

(** * Further properties *)

(** ** [trimPrompt] on short texts and on its own results *)

Lemma slice0_short {A} (e : Z) (s : list A) :
  Z.of_nat (length s) <= e -> slice0 e s = s.
Proof.
  intros He. rewrite slice0_nonneg by lia. apply take_ge. lia.
Qed.

(** Whatever a run of [trimPrompt] returns fits the budget or the floor;
    nothing is assumed of the splitter. *)
Lemma trimPrompt_fuel_result_bound E contextSize fuel prompt r :
  trimPrompt_fuel E fuel prompt contextSize = Some (Fulfilled r) ->
  within_budget E r contextSize \/ (length r <= 140)%nat.
Proof.
  intros Hrun.
  destruct (trimPrompt_fuel_ends E (fun _ _ => True) contextSize)
    with (fuel := fuel) (prompt := prompt) (out := Fulfilled r)
    as (at_hand & _ & Hends); [done | done | done | done |].
  by eapply ends_at_bound.
Qed.

(** A text within the floor that the tokenizer accepts comes back whole. *)
Lemma trimPrompt_floor_text E prompt contextSize tokens :
  encode E prompt = Fulfilled tokens ->
  (length prompt <= Z.to_nat MinChunkSize)%nat ->
  trimPrompt E prompt contextSize = Some (Fulfilled prompt).
Proof.
  intros Hencode Hshort. unfold MinChunkSize in Hshort.
  unfold trimPrompt. rewrite trimPrompt_fuel_unfold.
  unfold trimPrompt_next, trimPrompt_base.
  destruct prompt as [| c prompt]; [reflexivity |].
  change (falsy (c :: prompt)) with false. cbv beta iota. rewrite Hencode.
  cbv zeta. unfold chunkSize_of.
  destruct (Z.leb_spec (Z.of_nat (length tokens)) contextSize)
    as [| Hover]; [reflexivity |].
  rewrite orb_false_l.
  destruct (Z.ltb_spec
    (Z.of_nat (length (c :: prompt))
     - (Z.of_nat (length tokens) - contextSize) * 3)
    MinChunkSize) as [_ | Hge]; [| unfold MinChunkSize in Hge; lia].
  do 2 f_equal. apply slice0_short. unfold MinChunkSize. lia.
Qed.

(** A text within the budget is returned as it is. *)
Lemma trimPrompt_within_budget E prompt contextSize :
  within_budget E prompt contextSize ->
  trimPrompt E prompt contextSize = Some (Fulfilled prompt).
Proof.
  intros (tokens & Hencode & Hfits). unfold trimPrompt. rewrite trimPrompt_fuel_unfold.
  unfold trimPrompt_next, trimPrompt_base.
  destruct prompt as [| c prompt]; [reflexivity |].
  change (falsy (c :: prompt)) with false. cbv beta iota. rewrite Hencode.
  cbv zeta.
  destruct (Z.leb_spec (Z.of_nat (length tokens)) contextSize);
    [reflexivity | lia].
Qed.

(** On a text that is not empty and that the tokenizer rejects,
    [trimPrompt] throws what the tokenizer throws. *)
Lemma trimPrompt_rejected E prompt contextSize e :
  prompt <> [] ->
  encode E prompt = Rejected e ->
  trimPrompt E prompt contextSize = Some (Rejected e).
Proof.
  intros Hne Hencode. unfold trimPrompt. rewrite trimPrompt_fuel_unfold.
  unfold trimPrompt_next, trimPrompt_base.
  destruct prompt as [| c prompt]; [done |].
  change (falsy (c :: prompt)) with false. cbv beta iota. by rewrite Hencode.
Qed.

(** X1: the texts [trimPrompt] returns unchanged are exactly the empty
    text and those the tokenizer accepts that are within the budget or have
    at most [MinChunkSize = 140] code units.  A text of at most 140 code
    units that the tokenizer accepts comes back whole whatever the budget
    and its token count: over budget, its estimated chunk size is below the
    floor and the cut to 140 code units keeps all of it.  On a text that is
    not empty and that the tokenizer rejects, [trimPrompt] throws what the
    tokenizer throws, however short the text. *)
Theorem trimPrompt_fixed_points E prompt contextSize :
  (trimPrompt E prompt contextSize = Some (Fulfilled prompt) <->
   prompt = []
   \/ exists tokens,
        encode E prompt = Fulfilled tokens
        /\ (Z.of_nat (length tokens) <= contextSize
            \/ (length prompt <= Z.to_nat MinChunkSize)%nat))
  /\ (forall e,
        prompt <> [] /\ encode E prompt = Rejected e ->
        trimPrompt E prompt contextSize = Some (Rejected e)).
Proof.
  split; [split |].
  - intros Hrun. destruct prompt as [| c prompt]; [by left | right].
    destruct (encode E (c :: prompt)) as [tokens | e] eqn:Hencode.
    + exists tokens. split; [done |].
      unfold trimPrompt in Hrun.
      apply trimPrompt_fuel_result_bound in Hrun as [(tokens' & Hencode' & ?) | ?].
      * left. congruence.
      * right. unfold MinChunkSize. lia.
    + rewrite (trimPrompt_rejected E _ contextSize e) in Hrun; done.
  - intros [-> | (tokens & Hencode & [Hbudget | Hfloor])].
    + reflexivity.
    + apply trimPrompt_within_budget. by exists tokens.
    + by eapply trimPrompt_floor_text.
  - intros e [Hne Hencode]. by apply trimPrompt_rejected.
Qed.

(** On the scripted world 100 code units with a budget of 10 tokens come
    back whole. *)
Example trimPrompt_floor_text_run :
  trimPrompt Demo.world (replicate 100 97%N) 10
  = Some (Fulfilled (replicate 100 97%N)).
Proof. vm_compute. reflexivity. Qed.

(** X2: [trimPrompt] is idempotent: trimming a text it returned, with the
    same budget, returns that text again, be it within the budget or one cut
    at the floor of 140 code units; unless the tokenizer, which accepted the
    text the result was cut from, throws on the result, in which case
    [trimPrompt] throws that.  With a tokenizer that accepts the pieces a
    text starts with whenever it accepts the text, the result is always
    returned again.  Nothing is assumed of the splitter. *)
Theorem trimPrompt_idempotent E fuel prompt contextSize r :
  trimPrompt_fuel E fuel prompt contextSize = Some (Fulfilled r) ->
  (trimPrompt E r contextSize = Some (Fulfilled r)
   \/ exists e,
        encode E r = Rejected e
        /\ trimPrompt E r contextSize = Some (Rejected e))
  /\ (accepts_prefixes E -> trimPrompt E r contextSize = Some (Fulfilled r)).
Proof.
  intros Hrun.
  destruct (trimPrompt_fuel_ends E (fun _ _ => True) contextSize)
    with (fuel := fuel) (prompt := prompt) (out := Fulfilled r)
    as (at_hand & _ & Hends); [done | done | done | done |].
  pose proof (ends_at_bound E _ _ _ Hends) as Hbound.
  split.
  - destruct Hbound as [Hbudget | Hfloor].
    + left. by apply trimPrompt_within_budget.
    + destruct r as [| c r]; [by left |].
      destruct (encode E (c :: r)) as [tokens | e] eqn:Hencode.
      * left. eapply trimPrompt_floor_text; [exact Hencode |].
        unfold MinChunkSize. lia.
      * right. exists e. split; [done |]. by apply trimPrompt_rejected.
  - intros Haccepts.
    inversion Hends as [| | tokens Hne Hencode Hfits | tokens Hne Hencode Hover Hmin];
      subst.
    + reflexivity.
    + apply trimPrompt_within_budget. by exists tokens.
    + rewrite slice0_nonneg by done.
      destruct (Haccepts at_hand (Z.to_nat MinChunkSize) tokens Hencode)
        as [tokens' Hencode'].
      eapply trimPrompt_floor_text; [exact Hencode' |].
      rewrite length_take. lia.
Qed.

Lemma starts_with_take (p s : jsstring) n :
  starts_with p (take n s) = true -> starts_with p s = true.
Proof.
  revert s n. induction p as [| a p IH]; intros s n; [done |].
  destruct s as [| b s]; [by rewrite take_nil |].
  destruct n as [| n]; [done |]. simpl.
  intros [-> Hrest]%andb_true_iff. simpl. by eapply IH.
Qed.

Lemma includes_take (s p : jsstring) n :
  includes (take n s) p = true -> includes s p = true.
Proof.
  revert n. induction s as [| c s IH]; intros n.
  - by rewrite take_nil.
  - destruct n as [| n].
    + simpl. intros Hp. rewrite orb_false_r in Hp.
      destruct p; [done | discriminate].
    + simpl. intros [Hhere | Hlater]%orb_true_iff.
      * apply (starts_with_take p (c :: s) (S n)) in Hhere. by rewrite Hhere.
      * apply IH in Hlater. rewrite Hlater. apply orb_true_r.
Qed.

(** The scripted tokenizer throws on the texts that hold the special token:
    it accepts what an accepted text starts with. *)
Lemma Demo_accepts_prefixes : accepts_prefixes Demo.world.
Proof.
  intros t n tokens. simpl. unfold Demo.tokenizer.
  destruct (includes t _) eqn:Ht; [done |]. intros _.
  destruct (includes (take n t) _) eqn:Hn; [| by eexists].
  apply includes_take in Hn. congruence.
Qed.

Lemma trimPrompt_idempotent_witness :
  trimPrompt Demo.world (replicate 200 97%N) 10
  = Some (Fulfilled (replicate 140 97%N))
  /\ trimPrompt Demo.world (replicate 140 97%N) 10
     = Some (Fulfilled (replicate 140 97%N)).
Proof.
  assert (trimPrompt_fuel Demo.world 201 (replicate 200 97%N) 10
          = Some (Fulfilled (replicate 140 97%N))) as Hrun
    by (vm_compute; reflexivity).
  split; [exact Hrun |].
  exact (proj2 (trimPrompt_idempotent Demo.world 201 (replicate 200 97%N) 10
                  (replicate 140 97%N) Hrun) Demo_accepts_prefixes).
Defined.

(** ** The summary chain below the title *)

Lemma trimStart_snoc (x : jsstring) (c : N) :
  is_white_space c = false -> exists z, trimStart (x ++ [c]) = z ++ [c].
Proof.
  intros Hc. induction x as [| a x IH]; simpl.
  - rewrite Hc. by exists [].
  - destruct (is_white_space a); [exact IH | by exists (a :: x)].
Qed.

(** A text that ends with a code unit that is not white space is not blank. *)
Lemma trim_snoc_not_nil (x : jsstring) (c : N) :
  is_white_space c = false -> trim (x ++ [c]) <> [].
Proof.
  intros Hc. unfold trim, trimEnd.
  destruct (trimStart_snoc x c Hc) as [z ->].
  rewrite reverse_snoc. simpl. rewrite Hc. rewrite reverse_cons.
  intros Hnil. by apply app_eq_nil in Hnil as [_ ?].
Qed.

Lemma trim_ellipsis_not_nil (x : jsstring) : trim (x ++ ellipsis) <> [].
Proof.
  change ellipsis with ([46%N; 46%N] ++ [46%N]). rewrite (assoc_L (++)).
  by apply trim_snoc_not_nil.
Qed.

Lemma cut150_length (t : jsstring) : (length (cut150 t) <= 153)%nat.
Proof.
  unfold cut150. rewrite length_app, slice0_length by done.
  destruct (150 <? length t)%nat; [change (length ellipsis) with 3%nat
    | change (length (@nil N)) with 0%nat]; lia.
Qed.

Lemma cut150_short (t : jsstring) : (length t <= 150)%nat -> cut150 t = t.
Proof.
  intros Hshort. unfold cut150.
  destruct (Nat.ltb_spec 150 (length t)); [lia |].
  rewrite app_nil_r. apply slice0_short. lia.
Qed.

Lemma cut150_not_blank (t : jsstring) : trim t <> [] -> trim (cut150 t) <> [].
Proof.
  intros Ht. destruct (Nat.le_gt_cases (length t) 150) as [Hshort | Hlong].
  - by rewrite cut150_short.
  - unfold cut150. apply Nat.ltb_lt in Hlong. rewrite Hlong.
    apply trim_ellipsis_not_nil.
Qed.

(** X3: for a search result with a url, no usable title and a description
    that is not blank, the summary of the derived source is the description,
    whole when it has at most 150 code units and otherwise cut to its first
    150 followed by [...]: at most 153 code units.  Deriving it makes no call
    and writes no log line, whatever the markdown. *)
Theorem summary_from_description E item item_url_ description_ s :
  item_url item = Some item_url_ ->
  item_url_ <> [] ->
  usable (metadata_title item) = false ->
  metadata_description item = Some description_ ->
  trim description_ <> [] ->
  newUrl E item s =
    (Return (Some {| ref := next_ref s; url := item_url_;
                     summary := cut150 description_ |}),
     {| next_ref := S (next_ref s); progresses := progresses s;
        events := events s |})
  /\ (length (cut150 description_) <= 153)%nat
  /\ ((length description_ <= 150)%nat -> cut150 description_ = description_).
Proof.
  intros Hurl Hne Htitle Hdescription Htrim.
  split; [| split; [apply cut150_length | apply cut150_short]].
  assert (selectSummary E item item_url_ s = (Return (cut150 description_), s))
    as Hselect.
  { unfold selectSummary.
    rewrite Htitle, Hdescription, (usable_Some _ Htrim). reflexivity. }
  unfold newUrl. rewrite Hurl.
  destruct item_url_ as [| c u]; [done |].
  change (falsy (c :: u)) with false. unfold bind at 1. cbv beta iota.
  rewrite Hselect.
  pose proof (cut150_not_blank _ Htrim) as Hcut.
  rewrite (not_blank_not_falsy _ Hcut).
  apply blank_false in Hcut. rewrite Hcut. reflexivity.
Qed.

Lemma summary_from_description_witness :
  fst (newUrl Demo.world
         {| item_url := Some (js "https://d.example");
            item_markdown := Some (js "body");
            item_metadata :=
              Some {| title := Some (js "  ");
                      description := Some (replicate 151 100%N) |} |} initial)
  = Return (Some {| ref := 0; url := js "https://d.example";
                    summary := replicate 150 100%N ++ js "..." |}).
Proof.
  destruct (summary_from_description Demo.world
              {| item_url := Some (js "https://d.example");
                 item_markdown := Some (js "body");
                 item_metadata :=
                   Some {| title := Some (js "  ");
                           description := Some (replicate 151 100%N) |} |}
              (js "https://d.example") (replicate 151 100%N) initial)
    as (Hrun & _ & _);
    [reflexivity | discriminate | reflexivity | reflexivity
    | vm_compute; discriminate |].
  rewrite Hrun. vm_compute. reflexivity.
Defined.

Lemma replace_newlines_no_newline (t : jsstring) : 10%N ∉ replace_newlines t.
Proof.
  unfold replace_newlines. intros (c & Hc & _)%list_elem_of_fmap.
  destruct (N.eqb_spec c 10); [discriminate | congruence].
Qed.

Lemma truncated_markdown_spec (markdown : jsstring) :
  (length (truncated_markdown markdown) <= 153)%nat
  /\ 10%N ∉ truncated_markdown markdown.
Proof.
  unfold truncated_markdown. split.
  - rewrite length_app. unfold replace_newlines.
    rewrite length_fmap, slice0_length by done.
    destruct (150 <? length markdown)%nat;
      [change (length ellipsis) with 3%nat
    | change (length (@nil N)) with 0%nat]; lia.
  - intros [Hin | Hin]%elem_of_app.
    + by apply replace_newlines_no_newline in Hin.
    + destruct (150 <? length markdown)%nat; [| by apply elem_of_nil in Hin].
      vm_compute in Hin. repeat (apply elem_of_cons in Hin as [Hin | Hin];
        [discriminate |]). by apply elem_of_nil in Hin.
Qed.

(** X4: for a search result with a url and neither a usable title nor a
    usable description, whose markdown is not empty, the summary follows the
    outcome of the summary call on the trimmed markdown.  If the call is
    rejected the summary is the truncation of the markdown (its first 150
    code units with line feeds turned into spaces, plus [...] if it was
    longer: at most 153 code units, no line feed), or the sentinel when that
    is blank; the rejection is absorbed.  If the call is fulfilled the summary
    is the generated text, whole and however long, or the sentinel when that
    is empty or blank. *)
Theorem summary_from_markdown E item item_url_ markdown content s :
  item_url item = Some item_url_ ->
  item_url_ <> [] ->
  usable (metadata_title item) = false ->
  usable (metadata_description item) = false ->
  item_markdown item = Some markdown ->
  markdown <> [] ->
  trimPrompt E markdown (defaultContextSize E) = Some (Fulfilled content) ->
  (forall e,
      generate_summary E content = Rejected e ->
      fst (newUrl E item s)
      = Return (Some {| ref := next_ref s; url := item_url_;
                        summary := checked (truncated_markdown markdown) |})
      /\ (length (checked (truncated_markdown markdown)) <= 153)%nat
      /\ 10%N ∉ checked (truncated_markdown markdown))
  /\ (forall generated,
        generate_summary E content = Fulfilled generated ->
        fst (newUrl E item s)
        = Return (Some {| ref := next_ref s; url := item_url_;
                          summary := checked generated |})
        /\ (trim generated <> [] -> checked generated = generated)).
Proof.
  intros Hurl Hne Htitle Hdescription Hmarkdown Hmd Htrim.
  destruct item_url_ as [| c u]; [done |].
  destruct markdown as [| m markdown]; [done |].
  assert (forall r,
    generate_summary E content = r ->
    fst (newUrl E item s)
    = Return (Some {| ref := next_ref s; url := c :: u;
                      summary := checked match r with
                                         | Fulfilled generated => generated
                                         | Rejected _ =>
                                             truncated_markdown (m :: markdown)
                                         end |})) as Hrun.
  { intros r Hr. unfold newUrl, selectSummary.
    rewrite Hurl, Htitle, Hdescription, Hmarkdown.
    change (falsy (c :: u)) with false. cbv beta iota.
    unfold bind, try_catch, log, emit, run_sync, sync, await_call, bind, emit,
      ret, throw, fresh_ref.
    simpl. rewrite Htrim. simpl. rewrite Hr. by destruct r. }
  split.
  - intros e He. split; [exact (Hrun _ He) |].
    destruct (truncated_markdown_spec (m :: markdown)) as [Hlen Hnl].
    unfold checked. destruct (_ || _); [| done].
    split; [vm_compute; lia |].
    vm_compute. intros Hin.
    repeat (apply elem_of_cons in Hin as [Hin | Hin]; [discriminate |]).
    by apply elem_of_nil in Hin.
  - intros generated Hg. split; [exact (Hrun _ Hg) |].
    intros Hnot. unfold checked.
    rewrite (not_blank_not_falsy _ Hnot).
    apply blank_false in Hnot. by rewrite Hnot.
Qed.

Lemma summary_from_markdown_witness :
  fst (newUrl Demo.world (Demo.page "https://b.example" "" "two
lines") initial)
  = Return (Some {| ref := 0; url := js "https://b.example";
                    summary := js "two lines" |}).
Proof.
  destruct (summary_from_markdown Demo.world
              (Demo.page "https://b.example" "" "two
lines")
              (js "https://b.example") (js "two
lines") (js "two
lines") initial)
    as [Hrejected _];
    [reflexivity | discriminate | reflexivity | reflexivity | reflexivity
    | discriminate | vm_compute; reflexivity |].
  destruct (Hrejected (Error (js "no summary model"))) as [Hrun _];
    [reflexivity |].
  rewrite Hrun. vm_compute. reflexivity.
Defined.

(** When the markdown holds a special token, [trimPrompt] throws while the
    prompt of the summary call is built: the call is not made, and its
    handler falls back to the truncated markdown. *)
Example summary_special_token_run :
  newUrl Demo.world (Demo.page "https://m.example" "" "<|endoftext|>") initial
  = (Return (Some {| ref := 0; url := js "https://m.example";
                     summary := js "<|endoftext|>" |}),
     {| next_ref := 1; progresses := [];
        events := [ Log (LogSummaryAttempt (js "https://m.example"));
                    Log (LogSummaryFailed (js "https://m.example")
                           Demo.special_token) ] |}).
Proof. vm_compute. reflexivity. Qed.

(** ** What computations return *)

Lemma returns_ret {A} (a : A) (Q : A -> Prop) : Q a -> returns (ret a) Q.
Proof. intros HQ s a' s' [= <- <-]. exact HQ. Qed.

Lemma returns_throw {A} e (Q : A -> Prop) : returns (throw e) Q.
Proof. by intros s a s'. Qed.

Lemma returns_weaken {A} (m : M A) (P Q : A -> Prop) :
  returns m P -> (forall a, P a -> Q a) -> returns m Q.
Proof. intros Hm HPQ s a s' Hrun. eapply HPQ, Hm, Hrun. Qed.

Lemma returns_bind {A B} (m : M A) (k : A -> M B) (P : A -> Prop) (Q : B -> Prop) :
  returns m P -> (forall a, P a -> returns (k a) Q) -> returns (bind m k) Q.
Proof.
  intros Hm Hk s b s' Hrun. bind_inv Hrun.
  eapply Hk; [eapply Hm; exact Hrun0 | exact Hrun].
Qed.

Lemma returns_try_catch {A} (body : M A) handler (Q : A -> Prop) :
  returns body Q -> (forall e, returns (handler e) Q) ->
  returns (try_catch body handler) Q.
Proof.
  intros Hbody Hhandler s a s' Hrun. unfold try_catch in Hrun.
  destruct (body s) as [[a' | e | ] s1] eqn:Hb.
  - injection Hrun as <- <-. by eapply Hbody.
  - by eapply Hhandler.
  - done.
Qed.

Lemma returns_mapM {A B} (f : A -> M B) (P : A -> B -> Prop) l :
  (forall x, x ∈ l -> returns (f x) (P x)) ->
  returns (mapM f l) (Forall2 P l).
Proof.
  induction l as [| x l IH]; intros Hf; simpl.
  - apply returns_ret. constructor.
  - eapply returns_bind; [apply Hf; by left |]. intros y Hy.
    eapply returns_bind; [apply IH; intros z Hz; apply Hf; by right |].
    intros ys Hys. apply returns_ret. by constructor.
Qed.

Lemma returns_await_call {A} ev (r : settled A) :
  returns (await_call ev r) (fun a => r = Fulfilled a).
Proof. intros s a s'. destruct r; [by intros [= <- <-] | done]. Qed.

Lemma returns_run_sync {A} (r : option (settled A)) :
  returns (run_sync r) (fun a => r = Some (Fulfilled a)).
Proof. intros s a s'. destruct r as [[] |]; [by intros [= <- <-] | done | done]. Qed.

(** What the per-result function returns: nothing for a result without a
    url, and for the others a source with the url of the result and a
    summary that is not blank. *)
Lemma returns_newUrl E item :
  returns (newUrl E item)
    (fun o => match item_url item with
              | Some (c :: u) =>
                  exists r summary_,
                    o = Some {| ref := r; url := c :: u; summary := summary_ |}
                    /\ trim summary_ <> []
              | _ => o = None
              end).
Proof.
  unfold newUrl. destruct (item_url item) as [[| c u] |].
  - by apply returns_ret.
  - change (falsy (c :: u)) with false. cbv iota.
    intros s o s' Hrun. bind_inv Hrun. bind_inv Hrun. injection Hrun as <- <-.
    eexists _, _. split; [reflexivity | apply final_summary_not_blank].
  - by apply returns_ret.
Qed.

(** X5: the visited sources a search contributes are its results that carry
    a non-empty url, one source per such result and in the order of the
    results, each with the url of its result and a summary that is not
    blank; the results without a url are dropped. *)
Theorem sources_are_results_with_url E items s sources s' :
  mapM (newUrl E) items s = (Return sources, s') ->
  url <$> compact sources = compact_strings (item_url <$> items)
  /\ Forall (fun v => trim (summary v) <> []) (compact sources).
Proof.
  intros Hrun.
  pose proof (returns_mapM (newUrl E) _ items
                (fun item _ => returns_newUrl E item) s sources s' Hrun) as Hall.
  clear Hrun. induction Hall as [| item o items sources Ho _ [IHurl IHsummary]].
  - by split.
  - rewrite fmap_cons. destruct (item_url item) as [[| c u] |].
    + subst o. by split.
    + destruct Ho as (r & summary_ & -> & Hsummary). simpl. split.
      * f_equal. exact IHurl.
      * by constructor.
    + subst o. by split.
Qed.

Lemma sources_are_results_with_url_witness :
  url <$> compact
            (match fst (mapM (newUrl Demo.world)
                          [ Demo.page "https://a.example" "Example" "body";
                            {| item_url := None; item_markdown := Some (js "lost");
                               item_metadata := None |};
                            Demo.page "https://b.example" "" "text" ] initial) with
             | Return sources => sources
             | _ => []
             end)
  = [js "https://a.example"; js "https://b.example"].
Proof.
  destruct (mapM (newUrl Demo.world)
              [ Demo.page "https://a.example" "Example" "body";
                {| item_url := None; item_markdown := Some (js "lost");
                   item_metadata := None |};
                Demo.page "https://b.example" "" "text" ] initial)
    as [[sources | e | ] s'] eqn:Hrun; [| by vm_compute in Hrun..].
  destruct (sources_are_results_with_url Demo.world _ initial sources s' Hrun)
    as [Hurls _].
  exact Hurls.
Defined.

(** ** What an invocation returns *)

Lemma returns_processSerpResult E query result numLearnings numFollowUpQuestions :
  returns (processSerpResult E query result numLearnings numFollowUpQuestions)
    (fun res => exists contents,
       generate_learnings E query contents numLearnings numFollowUpQuestions
       = Fulfilled res).
Proof.
  unfold processSerpResult.
  eapply returns_bind; [apply returns_mapM; intros x _; apply returns_run_sync |].
  intros contents _. intros s res s' Hrun.
  bind_inv Hrun. bind_inv Hrun. bind_inv Hrun. injection Hrun as <- <-.
  exists contents. by eapply returns_await_call.
Qed.

Lemma compact_searched E query result sources :
  firecrawl_search E query = Fulfilled result ->
  forall items,
    Forall2 (fun item o =>
               item ∈ data result
               /\ match item_url item with
                  | Some (c :: u) =>
                      exists r summary_,
                        o = Some {| ref := r; url := c :: u; summary := summary_ |}
                        /\ trim summary_ <> []
                  | _ => o = None
                  end) items sources ->
    Forall (fun v => searched E (url v)) (compact sources).
Proof.
  intros Hsearch items Hall.
  induction Hall as [| item o items sources [Hin Ho] _ IH]; [constructor |].
  destruct (item_url item) as [[| c u] |] eqn:Hurl; try (subst o; exact IH).
  destruct Ho as (r & summary_ & -> & _). simpl. constructor; [| exact IH].
  by exists query, result, item.
Qed.

(** How the [try] block of a branch completes, with where its new learnings
    and sources come from. *)
Lemma returns_branch_try E progress breadth depth known visited onProgress
    serpQuery :
  returns (branch_try E progress breadth depth known visited onProgress serpQuery)
    (fun c => exists newLearnings newUrls,
       Forall (extracted E) (pr_learnings newLearnings)
       /\ Forall (fun v => searched E (url v)) newUrls
       /\ c = if 0 <? depth - 1 then
                Returned_call (nextQuery_of serpQuery newLearnings)
                  (ceil_half breadth) (depth - 1)
                  (known ++ pr_learnings newLearnings) (visited ++ newUrls)
              else
                Value {| learnings := known ++ pr_learnings newLearnings;
                         visitedUrls := visited ++ newUrls |}).
Proof.
  unfold branch_try.
  eapply returns_bind; [apply returns_await_call |]. intros result Hsearch.
  eapply returns_bind.
  { apply (returns_mapM (newUrl E)
             (fun item o => item ∈ data result
                /\ match item_url item with
                   | Some (c :: u) =>
                       exists r summary_,
                         o = Some {| ref := r; url := c :: u; summary := summary_ |}
                         /\ trim summary_ <> []
                   | _ => o = None
                   end)).
    intros item Hitem. eapply returns_weaken; [apply returns_newUrl |].
    intros o Ho. by split. }
  intros sources Hsources.
  eapply returns_bind; [apply returns_processSerpResult |].
  intros newLearnings [contents Hgen].
  intros s c s' Hrun.
  exists newLearnings, (compact sources). split; [| split].
  - apply Forall_forall. intros l Hl. apply list_elem_of_In in Hl.
    unfold extracted. do 5 eexists. split; [exact Hgen | exact Hl].
  - simpl in Hsearch.
    eapply compact_searched; [exact Hsearch | exact Hsources].
  - destruct (0 <? depth - 1).
    + bind_inv Hrun. bind_inv Hrun. bind_inv Hrun. by injection Hrun as <- <-.
    + bind_inv Hrun. bind_inv Hrun. by injection Hrun as <- <-.
Qed.

Section returns_induction.

Context (E : externals).
Context (P : list jsstring -> list UrlWithSummary -> ResearchResult -> Prop).
Context (P_empty : forall known visited, P known visited empty_result).
Context (P_value : forall known visited newLearnings newUrls,
            Forall (extracted E) newLearnings ->
            Forall (fun v => searched E (url v)) newUrls ->
            P known visited {| learnings := known ++ newLearnings;
                               visitedUrls := visited ++ newUrls |}).
Context (P_deeper : forall known visited newLearnings newUrls r,
            Forall (extracted E) newLearnings ->
            Forall (fun v => searched E (url v)) newUrls ->
            P (known ++ newLearnings) (visited ++ newUrls) r ->
            P known visited r).
Context (P_aggregate : forall known visited results,
            Forall (P known visited) results ->
            P known visited (aggregate results)).

Lemma returns_branch recurse progress breadth depth known visited onProgress
    serpQuery :
  (forall query breadth' depth' known' visited',
      returns (recurse query breadth' depth' known' visited' onProgress)
        (P known' visited')) ->
  returns (branch E recurse progress breadth depth known visited onProgress
             serpQuery) (P known visited).
Proof.
  intros Hrecurse s r s' Hrun. unfold branch in Hrun. bind_inv Hrun.
  unfold try_catch in Hrun0.
  destruct (branch_try E progress breadth depth known visited onProgress
              serpQuery s) as [[c | e | ] s1] eqn:Htry; [| | done].
  - injection Hrun0 as <- <-.
    destruct (returns_branch_try E progress breadth depth known visited
                onProgress serpQuery s c s1 Htry)
      as (newLearnings & newUrls & HL & HU & ->).
    destruct (0 <? depth - 1).
    + eapply P_deeper; [exact HL | exact HU |]. eapply Hrecurse, Hrun.
    + injection Hrun as <- <-. by apply P_value.
  - apply branch_catch_returns in Hrun0 as ->.
    injection Hrun as <- <-. apply P_empty.
Qed.

(** An induction principle for what [deepResearch] returns: a property of
    results, relative to the learnings and sources passed in, that holds of
    the empty result, of the accumulators of a branch at the last level, of
    the result of a deeper call when it holds relative to what was passed to
    it, and of an aggregate when it holds of the results of the branches. *)
Lemma returns_deepResearch fuel :
  forall query breadth depth known visited onProgress,
    returns (deepResearch E fuel query breadth depth known visited onProgress)
      (P known visited).
Proof.
  induction fuel as [| fuel IH];
    intros query breadth depth known visited onProgress; [by intros s r s' |].
  rewrite deepResearch_S.
  eapply returns_bind with (P := fun _ => True); [by intros s a s' _ |].
  intros [progress serpQueries] _.
  eapply returns_bind; [| intros results Hresults; apply returns_ret, P_aggregate;
                           exact Hresults].
  unfold fan_out.
  eapply returns_weaken.
  - apply (returns_mapM _ (fun _ r => P known visited r)).
    intros serpQuery _. apply returns_branch. intros. apply IH.
  - intros results Hall. clear -Hall.
    induction Hall; constructor; done.
Qed.

End returns_induction.

(** X6: nothing in a result is made up by the orchestrator.  Every learning
    [deepResearch] returns was passed in by the caller or is among the
    learnings some call for learnings returned, and every source it returns
    was passed in or carries the url of a result that some search
    returned. *)
Theorem results_have_provenance E fuel query breadth depth known visited
    onProgress s r s' :
  deepResearch E fuel query breadth depth known visited onProgress s
  = (Return r, s') ->
  (forall l, l ∈ learnings r -> l ∈ known \/ extracted E l)
  /\ (forall v, v ∈ visitedUrls r -> v ∈ visited \/ searched E (url v)).
Proof.
  apply (returns_deepResearch E
           (fun known visited r =>
              (forall l, l ∈ learnings r -> l ∈ known \/ extracted E l)
              /\ (forall v, v ∈ visitedUrls r -> v ∈ visited \/ searched E (url v)))).
  - intros known' visited'. split; intros x Hx; by apply elem_of_nil in Hx.
  - intros known' visited' newLearnings newUrls HL HU. simpl. split.
    + intros l [Hl | Hl]%elem_of_app; [by left | right].
      by eapply Forall_forall in HL; [| apply list_elem_of_In].
    + intros v [Hv | Hv]%elem_of_app; [by left | right].
      by eapply (proj1 (Forall_forall _ _)) in HU; [| apply list_elem_of_In].
  - intros known' visited' newLearnings newUrls r' HL HU [Hl Hv]. split.
    + intros l Hin. destruct (Hl l Hin) as [[Hk | Hn]%elem_of_app | Hx];
        [by left | right | by right].
      by eapply Forall_forall in HL; [| apply list_elem_of_In].
    + intros v Hin. destruct (Hv v Hin) as [[Hk | Hn]%elem_of_app | Hx];
        [by left | right | by right].
      by eapply (proj1 (Forall_forall _ _)) in HU; [| apply list_elem_of_In].
  - intros known' visited' results Hall. split.
    + intros l Hl. apply aggregate_learnings_elem in Hl as (r' & Hr' & Hl).
      apply list_elem_of_In in Hr'.
      eapply (proj1 (Forall_forall _ _)) in Hall; [| exact Hr'].
      by apply Hall.
    + intros v Hv. simpl in Hv.
      apply (Set_spread_subset same_object ref same_object_key) in Hv.
      apply list_elem_of_bind in Hv as (r' & Hv & Hr').
      apply list_elem_of_In in Hr'.
      eapply (proj1 (Forall_forall _ _)) in Hall; [| exact Hr'].
      by apply Hall.
Qed.

Lemma results_have_provenance_witness :
  (js "fact" ∈ [] \/ extracted Demo.world (js "fact"))
  /\ ({| ref := 1; url := js "https://a.example"; summary := js "Example" |} ∈ []
      \/ searched Demo.world (js "https://a.example")).
Proof.
  destruct (results_have_provenance Demo.world 1 (js "topic") 2 1 [] [] None
              initial
              {| learnings := [js "fact"];
                 visitedUrls :=
                   [ {| ref := 0; url := js "https://a.example";
                        summary := js "Example" |};
                     {| ref := 1; url := js "https://a.example";
                        summary := js "Example" |} ] |}
              (snd (deepResearch Demo.world 1 (js "topic") 2 1 [] [] None initial)))
    as [Hlearnings Hsources]; [vm_compute; reflexivity |].
  split.
  - apply Hlearnings. by left.
  - apply (Hsources {| ref := 1; url := js "https://a.example";
                       summary := js "Example" |}).
    right. by left.
Defined.

Lemma carries_weaken known visited newLearnings newUrls r :
  carries (known ++ newLearnings) (visited ++ newUrls) r -> carries known visited r.
Proof.
  intros [Hl Hv]. split.
  - intros l Hin. apply Hl, elem_of_app. by left.
  - intros v Hin. apply Hv, elem_of_app. by left.
Qed.

Lemma aggregate_carries known visited results r :
  r ∈ results -> carries known visited r -> carries known visited (aggregate results).
Proof.
  intros Hr [Hl Hv]. split.
  - intros l Hin. apply aggregate_learnings_elem. exists r. split; [done | by apply Hl].
  - intros v Hin. destruct (Hv v Hin) as (v' & Hv' & Href).
    destruct (aggregate_visitedUrls_covers results r v' Hr Hv') as (v'' & ? & ?).
    exists v''. split; [done | congruence].
Qed.

(** X7: what the caller passes in is carried all or nothing.  Whatever the
    depth, a result returned by [deepResearch] is either the empty result, or
    it holds every learning and every source object the caller passed in
    (next to what was found): a branch returns its accumulators, which start
    with what was passed in, or the result of the deeper call they were
    passed to, or nothing when it failed. *)
Theorem carried_all_or_nothing E fuel query breadth depth known visited
    onProgress s r s' :
  deepResearch E fuel query breadth depth known visited onProgress s
  = (Return r, s') ->
  r = empty_result \/ carries known visited r.
Proof.
  apply (returns_deepResearch E
           (fun known visited r => r = empty_result \/ carries known visited r)).
  - intros known' visited'. by left.
  - intros known' visited' newLearnings newUrls _ _. right. split; simpl.
    + intros l Hl. apply elem_of_app. by left.
    + intros v Hv. exists v. split; [apply elem_of_app; by left | done].
  - intros known' visited' newLearnings newUrls r' _ _ [-> | Hcarries];
      [by left | right; by eapply carries_weaken].
  - intros known' visited' results Hall.
    assert (Forall (fun r => r = empty_result) results
            \/ exists r, r ∈ results /\ carries known' visited' r) as [Hempty | Hsome].
    { induction Hall as [| r0 results [-> | Hc] _ [IH | (r1 & Hr1 & Hc1)]].
      - left. constructor.
      - left. by constructor.
      - right. exists r1. split; [by right | done].
      - right. exists r0. split; [by left | done].
      - right. exists r0. split; [by left | done]. }
    + left. by apply aggregate_all_empty.
    + right. destruct Hsome as (r0 & Hr0 & Hc). by eapply aggregate_carries.
Qed.

Lemma carried_all_or_nothing_witness :
  {| learnings := [js "old"; js "fact"];
     visitedUrls := [ {| ref := 0; url := js "https://b.example";
                         summary := js "text" |} ] |} = empty_result
  \/ carries [js "old"] []
       {| learnings := [js "old"; js "fact"];
          visitedUrls := [ {| ref := 0; url := js "https://b.example";
                              summary := js "text" |} ] |}.
Proof.
  exact (carried_all_or_nothing Demo.world 1 (js "bare") 1 0 [js "old"] [] None
           initial
           {| learnings := [js "old"; js "fact"];
              visitedUrls := [ {| ref := 0; url := js "https://b.example";
                                  summary := js "text" |} ] |}
           (snd (deepResearch Demo.world 1 (js "bare") 1 0 [js "old"] [] None initial))
           ltac:(vm_compute; reflexivity)).
Defined.

(** ** Invocations without queries *)

Lemma searches_app evs1 evs2 :
  searches (evs1 ++ evs2) = (searches evs1 + searches evs2)%nat.
Proof.
  induction evs1 as [| ev evs1 IH]; [reflexivity |].
  destruct ev; simpl; by rewrite IH.
Qed.

(** X8: when no query is left after the cut to [breadth] (the model proposed
    none, or the breadth is 0), [deepResearch] makes no search and returns the
    empty result: the learnings and sources the caller passed in are not
    returned either.  The observer, if any, is one that returns. *)
Theorem no_query_no_research E fuel query breadth depth known visited onProgress
    s proposed :
  generate_queries E query known breadth = Fulfilled proposed ->
  slice0 breadth proposed = [] ->
  (forall notify, onProgress = Some notify -> forall p, notify p = Fulfilled tt) ->
  fst (deepResearch E (S fuel) query breadth depth known visited onProgress s)
  = Return empty_result
  /\ searches (events (snd (deepResearch E (S fuel) query breadth depth known
                              visited onProgress s)))
     = searches (events s).
Proof.
  intros Hgen Hnone Hquiet.
  rewrite deepResearch_after_new_progress.
  erewrite bind_Return by (apply generateSerpQueries_Fulfilled; exact Hgen).
  rewrite Hnone.
  unfold reportProgress, bind, update_progress, read_progress, await_call, bind,
    emit, ret, fan_out.
  simpl.
  destruct onProgress as [notify |]; simpl.
  - rewrite (Hquiet notify eq_refl). simpl. split; [reflexivity |].
    rewrite !searches_app. simpl. lia.
  - split; [reflexivity |]. rewrite !searches_app. simpl. lia.
Qed.

Lemma no_query_no_research_witness :
  fst (deepResearch Demo.world 1 (js "topic") 0 3 [js "old"] [] (Some Demo.quiet)
         initial)
  = Return empty_result
  /\ searches (events (snd (deepResearch Demo.world 1 (js "topic") 0 3 [js "old"] []
                              (Some Demo.quiet) initial)))
     = searches (events initial).
Proof.
  apply (no_query_no_research Demo.world 0 (js "topic") 0 3 [js "old"] []
           (Some Demo.quiet) initial [Demo.serp "alpha"; Demo.serp "beta"]).
  - vm_compute. reflexivity.
  - reflexivity.
  - intros notify [= <-] p. reflexivity.
Defined.

(** ** [processSerpResult] *)

Lemma mapM_run_sync {A B} (f : A -> option (settled B)) (l : list A)
    (outs : list (settled B)) s :
  Forall2 (fun x out => f x = Some out) l outs ->
  mapM (fun x => run_sync (f x)) l s
  = (match all_fulfilled outs with
     | Fulfilled r => Return r
     | Rejected e => Throw e
     end, s).
Proof.
  intros Hall. induction Hall as [| x out l outs Hx _ IH]; [reflexivity |].
  simpl. unfold bind at 1. rewrite Hx.
  destruct out as [y | e]; simpl; [| reflexivity].
  unfold bind at 1. rewrite IH. by destruct (all_fulfilled outs).
Qed.

Lemma all_fulfilled_Fulfilled {A} (outs : list (settled A)) (l : list A) :
  all_fulfilled outs = Fulfilled l -> outs = Fulfilled <$> l.
Proof.
  revert l. induction outs as [| [a | e] outs IH]; intros l; simpl.
  - by intros [= <-].
  - destruct (all_fulfilled outs) as [l' | e]; [| done].
    intros [= <-]. by rewrite (IH l' eq_refl).
  - done.
Qed.

(** With a splitter that does not lengthen its input every text is trimmed:
    to a text, or to an error of the tokenizer. *)
Lemma trimPrompt_all E contextSize (texts : list jsstring) :
  splitter_no_growth E ->
  exists outs,
    Forall2 (fun text out => trimPrompt E text contextSize = Some out) texts outs.
Proof.
  intros Hsplit. induction texts as [| text texts [outs IH]].
  - exists []. constructor.
  - destruct (trimPrompt_terminates_within E text contextSize Hsplit) as [out Hout].
    exists (out :: outs). by constructor.
Qed.

(** X9: [processSerpResult] trims the markdown of the results that have
    some to 25000 tokens each, skipping the results without markdown.  When
    the tokenizer throws on one of them, it throws that error at once: it
    writes no log line and does not call the model.  Otherwise it submits the
    trimmed contents (each within the budget or of at most 140 code units) to
    the model and returns the object of the model as it is, with however many
    learnings (the number asked for is not enforced), or throws what the
    model call throws, without another attempt.  The splitter is taken not
    to lengthen its input. *)
Theorem processSerpResult_passes_on E query result numLearnings
    numFollowUpQuestions s :
  splitter_no_growth E ->
  exists outs,
    Forall2 (fun markdown out => trimPrompt E markdown 25000 = Some out)
      (compact_strings (item_markdown <$> data result)) outs
    /\ match all_fulfilled outs with
       | Rejected e =>
           processSerpResult E query result numLearnings numFollowUpQuestions s
           = (Throw e, s)
       | Fulfilled contents =>
           fst (processSerpResult E query result numLearnings
                  numFollowUpQuestions s)
           = match generate_learnings E query contents numLearnings
                     numFollowUpQuestions with
             | Fulfilled res => Return res
             | Rejected e => Throw e
             end
           /\ Forall (fun content =>
                        within_budget E content 25000
                        \/ (length content <= 140)%nat) contents
           /\ (length contents <= length (data result))%nat
       end.
Proof.
  intros Hsplit.
  destruct (trimPrompt_all E 25000
              (compact_strings (item_markdown <$> data result)) Hsplit)
    as [outs Houts].
  exists outs. split; [exact Houts |].
  pose proof (mapM_run_sync (fun content => trimPrompt E content 25000) _ outs s Houts)
    as Hmap.
  destruct (all_fulfilled outs) as [contents | e] eqn:Hall.
  - split; [| split].
    + unfold processSerpResult.
      erewrite bind_Return by exact Hmap.
      unfold bind, log, await_call, bind, emit, ret, throw. simpl.
      by destruct (generate_learnings E query contents numLearnings
                     numFollowUpQuestions).
    + apply all_fulfilled_Fulfilled in Hall. subst outs.
      apply Forall2_fmap_r in Houts. clear -Houts.
      induction Houts as [| md c mds cs Hc _ IH]; constructor; [| exact IH].
      by eapply trimPrompt_fuel_result_bound.
    + apply all_fulfilled_Fulfilled in Hall. subst outs.
      apply Forall2_length in Houts. rewrite length_fmap in Houts.
      rewrite <- Houts.
      clear. induction (data result) as [| item items IH]; [done |].
      rewrite fmap_cons. simpl.
      destruct (item_markdown item) as [[| c md] |]; simpl; lia.
  - unfold processSerpResult. by apply bind_Throw.
Qed.

Lemma processSerpResult_passes_on_witness :
  splitter_no_growth Demo.world
  /\ fst (processSerpResult Demo.world (js "alpha")
            {| data := [ Demo.page "https://a.example" "Example" "body";
                         Demo.page "https://e.example" "No text" "" ] |} 3 1 initial)
     = Return {| pr_learnings := [js "fact"]; followUpQuestions := [js "next"] |}.
Proof.
  split; [exact Demo_splitter_no_growth |].
  destruct (processSerpResult_passes_on Demo.world (js "alpha")
              {| data := [ Demo.page "https://a.example" "Example" "body";
                           Demo.page "https://e.example" "No text" "" ] |}
              3 1 initial Demo_splitter_no_growth) as (outs & Houts & Hrun).
  apply Forall2_cons_inv_l in Houts as (out & outs' & Hout & Houts & ->).
  apply Forall2_nil_inv_l in Houts as ->.
  vm_compute in Hout. injection Hout as <-.
  exact (proj1 Hrun).
Defined.

(** A page that holds a special token makes [processSerpResult] throw what
    the tokenizer throws, before the model is called. *)
Example processSerpResult_special_token :
  processSerpResult Demo.world (js "marked")
    {| data := [ Demo.page "https://a.example" "Example" "body";
                 Demo.page "https://m.example" "" "<|endoftext|>" ] |} 3 1 initial
  = (Throw Demo.special_token, initial).
Proof. vm_compute. reflexivity. Qed.

(** ** [writeFinalReport] *)

Lemma starts_with_app (p s : jsstring) : starts_with p (p ++ s) = true.
Proof.
  induction p as [| a p IH]; [by destruct s |].
  simpl. by rewrite N.eqb_refl, IH.
Qed.

Lemma includes_here (s p : jsstring) : starts_with p s = true -> includes s p = true.
Proof. intros H. destruct s; simpl in *; by rewrite H. Qed.

Lemma includes_app_r (a s p : jsstring) :
  includes s p = true -> includes (a ++ s) p = true.
Proof.
  intros H. induction a as [| c a IH]; [exact H |].
  simpl. rewrite IH. apply orb_true_r.
Qed.

(** A text includes each of its contiguous pieces. *)
Lemma includes_middle (a p b : jsstring) : includes (a ++ p ++ b) p = true.
Proof. apply includes_app_r, includes_here, starts_with_app. Qed.

Lemma join_elem (sep x : jsstring) (l : list jsstring) :
  x ∈ l -> exists a b, join sep l = a ++ x ++ b.
Proof.
  induction l as [| y l IH]; intros Hx; [by apply elem_of_nil in Hx |].
  apply elem_of_cons in Hx as [<- | Hx].
  - destruct l as [| z l]; [exists [], []; simpl; by rewrite app_nil_r |].
    by exists [], (sep ++ join sep (z :: l)).
  - destruct (IH Hx) as (a & b & Hjoin).
    destruct l as [| z l]; [by apply elem_of_nil in Hx |].
    exists (y ++ sep ++ a), b.
    change (join sep (y :: z :: l)) with (y ++ sep ++ join sep (z :: l)).
    rewrite Hjoin. by rewrite <- !(assoc_L (++)).
Qed.

(** X10: a report that [writeFinalReport] returns is the markdown of the
    model followed by the [## Sources] section, which lists the sources it
    was given one entry each, in their order and without dropping repeated
    ones; so the report includes the entry, hence the url, of every source,
    whatever the model wrote, and with no source it still ends with the
    heading.  The learnings reach the model tagged, joined and trimmed to
    150000 tokens. *)
Theorem report_lists_every_source E generate_report prompt known visited report :
  writeFinalReport E generate_report prompt known visited = Some (Fulfilled report) ->
  exists learningsString reportMarkdown,
    trimPrompt E (join [10%N] (learning_tag <$> known)) 150000
    = Some (Fulfilled learningsString)
    /\ generate_report prompt learningsString = Fulfilled reportMarkdown
    /\ report = reportMarkdown ++ sources_heading
                ++ join [10%N; 10%N] (source_entry <$> visited)
    /\ (forall v, v ∈ visited ->
          includes report (source_entry v) = true
          /\ includes report (url v) = true)
    /\ (visited = [] -> report = reportMarkdown ++ sources_heading).
Proof.
  unfold writeFinalReport. intros Hrun.
  destruct (trimPrompt E _ 150000) as [[learningsString | e] |] eqn:Htrim;
    [| done | done].
  destruct (generate_report prompt learningsString) as [reportMarkdown | e] eqn:Hgen;
    [| done].
  injection Hrun as <-.
  exists learningsString, reportMarkdown.
  split; [done |]. split; [done |]. split; [reflexivity |]. split.
  - intros v Hv.
    destruct (join_elem [10%N; 10%N] (source_entry v) (source_entry <$> visited))
      as (a & b & Hjoin); [by apply list_elem_of_fmap_2 |].
    unfold urlsSection. rewrite Hjoin. split.
    + rewrite !(assoc_L (++)). rewrite <- (assoc_L (++) _ (source_entry v) b).
      apply includes_middle.
    + unfold source_entry.
      replace (reportMarkdown ++ sources_heading
               ++ a ++ (js "- " ++ url v ++ [10%N] ++ js "  *" ++ summary v ++ js "*")
               ++ b)
        with ((reportMarkdown ++ sources_heading ++ a ++ js "- ")
              ++ url v ++ ([10%N] ++ js "  *" ++ summary v ++ js "*" ++ b))
        by (rewrite <- !(assoc_L (++)); reflexivity).
      apply includes_middle.
  - intros ->. unfold urlsSection.
    change (join [10%N; 10%N] (source_entry <$> [])) with (@nil N).
    by rewrite (right_id_L [] (++)).
Qed.

(** [writeFinalReport] rejects with what [trimPrompt] throws on the tagged
    learnings, or with the rejection of the model call: no report is made up
    without the model. *)
Lemma writeFinalReport_rejects E generate_report prompt known visited e :
  writeFinalReport E generate_report prompt known visited = Some (Rejected e) <->
  trimPrompt E (join [10%N] (learning_tag <$> known)) 150000 = Some (Rejected e)
  \/ exists learningsString,
       trimPrompt E (join [10%N] (learning_tag <$> known)) 150000
       = Some (Fulfilled learningsString)
       /\ generate_report prompt learningsString = Rejected e.
Proof.
  unfold writeFinalReport. split.
  - intros Hrun.
    destruct (trimPrompt E _ 150000) as [[learningsString | e'] |]; [| | done].
    + right. exists learningsString. split; [done |].
      destruct (generate_report prompt learningsString);
        [discriminate | by injection Hrun as <-].
    + left. by injection Hrun as <-.
  - intros [-> | (learningsString & -> & Hgen)]; [done |]. by rewrite Hgen.
Qed.

(** A learning that holds a special token makes [writeFinalReport] reject
    with what the tokenizer throws, whatever the model would write. *)
Example writeFinalReport_special_token :
  writeFinalReport Demo.world (fun _ _ => Fulfilled (js "# Report")) (js "topic")
    [js "<|endoftext|>"] []
  = Some (Rejected Demo.special_token).
Proof. vm_compute. reflexivity. Qed.

Lemma report_lists_every_source_witness :
  writeFinalReport Demo.world (fun _ _ => Fulfilled (js "# Report")) (js "topic")
    [js "fact"]
    [ {| ref := 0; url := js "https://a.example"; summary := js "Example" |} ]
  = Some (Fulfilled
            (js "# Report"
             ++ urlsSection
                  [ {| ref := 0; url := js "https://a.example";
                       summary := js "Example" |} ]))
  /\ includes
       (js "# Report"
        ++ urlsSection
             [ {| ref := 0; url := js "https://a.example"; summary := js "Example" |} ])
       (js "https://a.example") = true.
Proof.
  assert (writeFinalReport Demo.world (fun _ _ => Fulfilled (js "# Report"))
            (js "topic") [js "fact"]
            [ {| ref := 0; url := js "https://a.example"; summary := js "Example" |} ]
          = Some (Fulfilled
                    (js "# Report"
                     ++ urlsSection
                          [ {| ref := 0; url := js "https://a.example";
                               summary := js "Example" |} ]))) as Hrun
    by (vm_compute; reflexivity).
  split; [exact Hrun |].
  destruct (report_lists_every_source _ _ _ _ _ _ Hrun)
    as (learningsString & reportMarkdown & _ & _ & _ & Hall & _).
  apply (Hall {| ref := 0; url := js "https://a.example"; summary := js "Example" |}).
  by left.
Defined.

(** ** The number of searches *)

Lemma costs_state {A} (m : M A) :
  (forall s, events (snd (m s)) = events s) -> costs m 0.
Proof. intros H s. rewrite H. lia. Qed.

Lemma costs_weaken {A} (m : M A) a b : costs m a -> (a <= b)%nat -> costs m b.
Proof. intros Hm Hab s. specialize (Hm s). lia. Qed.

Lemma costs_bind {A B} (m : M A) (k : A -> M B) (P : A -> Prop) a b :
  returns m P -> costs m a -> (forall x, P x -> costs (k x) b) ->
  costs (bind m k) (a + b).
Proof.
  intros Hreturns Hm Hk s. unfold bind. specialize (Hm s).
  destruct (m s) as [[x | e | ] s1] eqn:Hrun; simpl in *; [| lia | lia].
  specialize (Hk x (Hreturns s x s1 Hrun) s1). lia.
Qed.

Lemma returns_any {A} (m : M A) : returns m (fun _ => True).
Proof. by intros s a s' _. Qed.

Lemma costs_seq {A B} (m : M A) (k : A -> M B) a b :
  costs m a -> (forall x, costs (k x) b) -> costs (bind m k) (a + b).
Proof.
  intros Hm Hk. eapply costs_bind; [apply returns_any | exact Hm |].
  intros x _. apply Hk.
Qed.

Lemma costs_try_catch {A} (body : M A) handler a b :
  costs body a -> (forall e, costs (handler e) b) ->
  costs (try_catch body handler) (a + b).
Proof.
  intros Hbody Hhandler s. unfold try_catch. specialize (Hbody s).
  destruct (body s) as [[x | e | ] s1]; simpl in *; [lia | | lia].
  specialize (Hhandler e s1). lia.
Qed.

Lemma costs_mapM {A B} (f : A -> M B) l c :
  (forall x, costs (f x) c) -> costs (mapM f l) (length l * c).
Proof.
  intros Hf. induction l as [| x l IH]; simpl; [by apply costs_state |].
  eapply costs_weaken.
  - eapply costs_seq; [apply Hf |]. intros y.
    eapply costs_seq; [apply IH |]. intros ys. by apply costs_state.
  - lia.
Qed.

Lemma costs_mapM_0 {A B} (f : A -> M B) l :
  (forall x, costs (f x) 0) -> costs (mapM f l) 0.
Proof.
  intros Hf. eapply costs_weaken; [apply costs_mapM, Hf | lia].
Qed.

Lemma costs_ret {A} (a : A) : costs (ret a) 0.
Proof. by apply costs_state. Qed.

Lemma costs_log entry : costs (log entry) 0.
Proof. intros s. simpl. rewrite searches_app. simpl. lia. Qed.

(** A call that is not a search. *)
Lemma costs_other_call {A} ev (r : settled A) :
  searches [ev] = 0%nat -> costs (await_call ev r) 0.
Proof.
  intros Hev s. unfold await_call, bind, emit. simpl.
  destruct r; simpl; rewrite searches_app, Hev; lia.
Qed.

Lemma costs_search {A} query (r : settled A) : costs (await_call (CallSearch query) r) 1.
Proof.
  intros s. unfold await_call, bind, emit. simpl.
  destruct r; simpl; rewrite searches_app; simpl; lia.
Qed.

Lemma costs_sync {A} (r : settled A) : costs (sync r) 0.
Proof. apply costs_state. intros s. by destruct r. Qed.

Lemma costs_run_sync {A} (r : option (settled A)) : costs (run_sync r) 0.
Proof. apply costs_state. intros s. by destruct r as [[] |]. Qed.

Lemma costs_fresh_ref : costs fresh_ref 0.
Proof. by apply costs_state. Qed.

Lemma costs_read_progress progress : costs (read_progress progress) 0.
Proof. by apply costs_state. Qed.

Lemma costs_reportProgress progress onProgress update :
  costs (reportProgress progress onProgress update) 0.
Proof.
  intros s. unfold reportProgress, bind, update_progress, read_progress,
    await_call, bind, emit, ret, throw. simpl.
  destruct onProgress as [notify |]; simpl; [| lia].
  destruct (notify _); simpl; rewrite searches_app; simpl; lia.
Qed.

(** Split a sequence of steps that make no search into its steps. *)
Ltac costs_nothing :=
  repeat first
    [ solve [auto using costs_ret, costs_log, costs_sync, costs_run_sync,
               costs_fresh_ref,
               costs_read_progress, costs_reportProgress]
    | apply costs_other_call; reflexivity
    | apply (costs_try_catch _ _ 0 0); [| intros ?]
    | apply costs_mapM_0; intros ?
    | apply (costs_seq _ _ 0 0); [| intros ?]
    | progress cbv beta zeta ].

Lemma costs_newUrl E item : costs (newUrl E item) 0.
Proof.
  unfold newUrl. destruct (item_url item) as [u |]; [| costs_nothing].
  destruct (falsy u); [costs_nothing |].
  apply (costs_seq _ _ 0 0); [| intros chain; costs_nothing].
  unfold selectSummary.
  destruct (usable (metadata_title item)); [costs_nothing |].
  destruct (usable (metadata_description item)); [costs_nothing |].
  destruct (item_markdown item) as [[| c markdown] |]; costs_nothing.
Qed.

Lemma costs_processSerpResult E query result numLearnings numFollowUpQuestions :
  costs (processSerpResult E query result numLearnings numFollowUpQuestions) 0.
Proof. unfold processSerpResult. costs_nothing. Qed.

Lemma costs_generateSerpQueries E query numQueries known :
  costs (generateSerpQueries E query numQueries known) 0.
Proof. unfold generateSerpQueries. costs_nothing. Qed.

(** The [try] block of a branch makes one search. *)
Lemma costs_branch_try E progress breadth depth known visited onProgress serpQuery :
  costs (branch_try E progress breadth depth known visited onProgress serpQuery) 1.
Proof.
  unfold branch_try.
  apply (costs_seq _ _ 1 0); [apply costs_search |]. intros result.
  apply (costs_seq _ _ 0 0).
  { apply costs_mapM_0. intros. apply costs_newUrl. }
  intros sources.
  apply (costs_seq _ _ 0 0); [apply costs_processSerpResult |]. intros newLearnings.
  destruct (0 <? depth - 1); costs_nothing.
Qed.

Lemma costs_branch_catch serpQuery e : costs (branch_catch serpQuery e) 0.
Proof.
  unfold branch_catch.
  apply (costs_seq _ _ 0 0); [apply costs_sync |]. intros []; costs_nothing.
Qed.

(** A branch makes its search and those of the recursive call it returns. *)
Lemma costs_branch E recurse progress breadth depth known visited onProgress
    serpQuery c :
  (0 < depth - 1 ->
   forall query known' visited',
     costs (recurse query (ceil_half breadth) (depth - 1) known' visited' onProgress) c) ->
  costs (branch E recurse progress breadth depth known visited onProgress serpQuery)
    (1 + if 0 <? depth - 1 then c else 0).
Proof.
  intros Hrecurse s. unfold branch, bind, try_catch.
  pose proof (costs_branch_try E progress breadth depth known visited onProgress
                serpQuery s) as Htry_cost.
  destruct (branch_try E progress breadth depth known visited onProgress serpQuery s)
    as [[c' | e | ] s1] eqn:Htry; simpl in Htry_cost.
  - destruct (branch_try_completion E progress breadth depth known visited
                onProgress serpQuery s c' s1 Htry) as (newLearnings & newUrls & Hc).
    destruct (Z.ltb_spec 0 (depth - 1)) as [Hdepth | _]; subst c'.
    + specialize (Hrecurse Hdepth (nextQuery_of serpQuery newLearnings)
                    (known ++ pr_learnings newLearnings) (visited ++ newUrls) s1).
      lia.
    + simpl. lia.
  - pose proof (costs_branch_catch serpQuery e s1) as Hcatch_cost.
    destruct (branch_catch serpQuery e s1) as [[c' | e' | ] s2] eqn:Hcatch;
      simpl in *.
    + apply branch_catch_returns in Hcatch as ->. simpl.
      destruct (0 <? depth - 1); lia.
    + destruct (0 <? depth - 1); lia.
    + destruct (0 <? depth - 1); lia.
  - simpl. destruct (0 <? depth - 1); lia.
Qed.

Lemma ceil_half_nonneg breadth : 0 <= breadth -> 0 <= ceil_half breadth.
Proof. intros H. unfold ceil_half. apply Z.div_pos; lia. Qed.

Lemma slice0_length_le {A} (e : Z) (l : list A) :
  0 <= e -> (length (slice0 e l) <= Z.to_nat e)%nat.
Proof. intros He. rewrite slice0_length by done. lia. Qed.

(** With a breadth that is not negative, the queries are at most [breadth]. *)
Lemma returns_generateSerpQueries E query numQueries known :
  0 <= numQueries ->
  returns (generateSerpQueries E query numQueries known)
    (fun serpQueries => (length serpQueries <= Z.to_nat numQueries)%nat).
Proof.
  intros Hn s qs s' Hrun. unfold generateSerpQueries in Hrun.
  bind_inv Hrun. bind_inv Hrun. injection Hrun as <- <-.
  by apply slice0_length_le.
Qed.

(** X11: the searches of an invocation are bounded by its breadth and depth
    alone.  With a breadth [B >= 0], [deepResearch] makes at most [B]
    searches per invocation (one per query, the queries being cut to [B]),
    and for each of them those of a recursive call at half the breadth: at
    most [search_bound D B] searches over depth [D] (one level when
    [D <= 1]), however many queries the model proposes and whatever the
    calls return. *)
Theorem searches_bounded E fuel :
  forall query breadth depth known visited onProgress s,
    0 <= breadth ->
    (searches (events (snd (deepResearch E fuel query breadth depth known visited
                              onProgress s)))
     <= searches (events s) + search_bound (Z.to_nat (Z.max 1 depth)) breadth)%nat.
Proof.
  induction fuel as [| fuel IH];
    intros query breadth depth known visited onProgress s Hbreadth; [simpl; lia |].
  revert s.
  change (costs (deepResearch E (S fuel) query breadth depth known visited onProgress)
            (search_bound (Z.to_nat (Z.max 1 depth)) breadth)).
  rewrite deepResearch_S.
  destruct (Z.to_nat (Z.max 1 depth)) as [| levels] eqn:Hlevels; [lia |].
  eapply costs_weaken.
  - apply (costs_bind _ _
             (fun started => (length (snd started) <= Z.to_nat breadth)%nat) 0
             (Z.to_nat breadth
              * (1 + if (0 <? depth - 1)%Z
                     then search_bound levels (ceil_half breadth) else 0%nat))%nat).
    + unfold prologue.
      eapply returns_bind; [apply returns_any |]. intros progress _.
      eapply returns_bind; [by apply returns_generateSerpQueries |].
      intros serpQueries Hlength.
      eapply returns_bind; [apply returns_any |]. intros _ _.
      by apply returns_ret.
    + unfold prologue.
      apply (costs_seq _ _ 0 0); [by apply costs_state |]. intros progress.
      apply (costs_seq _ _ 0 0); [apply costs_generateSerpQueries |].
      intros serpQueries.
      apply (costs_seq _ _ 0 0); [apply costs_reportProgress |]. intros _.
      apply costs_ret.
    + intros [progress serpQueries] Hlength. simpl in Hlength.
      eapply costs_weaken.
      * eapply (costs_seq _ _ _ 0); [| intros results; apply costs_ret].
        unfold fan_out. apply costs_mapM. intros serpQuery.
        apply (costs_branch E (deepResearch E fuel) progress breadth depth known
                 visited onProgress serpQuery
                 (search_bound levels (ceil_half breadth))).
        intros Hdepth query' known' visited' s'.
        replace levels with (Z.to_nat (Z.max 1 (depth - 1))) by lia.
        apply IH. by apply ceil_half_nonneg.
      * simpl snd. rewrite Nat.add_0_r. by apply Nat.mul_le_mono_r.
  - simpl. apply Nat.mul_le_mono_l. destruct (0 <? depth - 1); lia.
Qed.

(** With breadth 4 and depth 2: at most 4 searches, and for each at most 2
    more. *)
Example search_bound_4_2 : search_bound 2 4 = 12%nat.
Proof. reflexivity. Qed.

Lemma searches_bounded_witness :
  (searches (events (snd (deepResearch Demo.steady 3 (js "topic") 4 3 [] [] None
                            initial)))
   <= searches (events initial) + search_bound (Z.to_nat (Z.max 1 3)) 4)%nat.
Proof.
  apply (searches_bounded Demo.steady 3 (js "topic") 4 3 [] [] None initial). lia.
Defined.

(** ** The counters of a progress object *)

(** The state a sequence ends in: that of its continuation when the first
    step returns, that of the first step otherwise. *)
Lemma bind_state_cases {A B} (m : M A) (k : A -> M B) s (Q : state -> Prop) :
  (forall a s1, m s = (Return a, s1) -> Q (snd (k a s1))) ->
  ((forall a, fst (m s) <> Return a) -> Q (snd (m s))) ->
  Q (snd (bind m k s)).
Proof.
  intros Hreturn Hstop. unfold bind.
  destruct (m s) as [[a | e | ] s1] eqn:Hrun; [by apply Hreturn | |];
    by apply Hstop.
Qed.

Lemma progress_within_same progress total low high s s' :
  progresses s' = progresses s ->
  progress_within progress total low high s ->
  progress_within progress total low high s'.
Proof. intros Heq (p & Hp & Hrest). exists p. by rewrite Heq. Qed.

Lemma progress_within_weaken progress total low high high' s :
  high <= high' ->
  progress_within progress total low high s ->
  progress_within progress total low high' s.
Proof. intros Hle (p & Hp & Ht & Hc). exists p. split; [done |]. split; [done | lia]. Qed.

(** Reporting one more completed query. *)
Lemma progress_within_report progress onProgress update total low high s p :
  progresses s !! progress = Some p ->
  totalQueries p = total ->
  low <= completedQueries p <= high ->
  set_totalQueries update = None ->
  set_completedQueries update = Some (completedQueries p + 1) ->
  progress_within progress total low (high + 1)
    (snd (reportProgress progress onProgress update s)).
Proof.
  intros Hp Htotal Hcompleted Hut Huc.
  assert (progress_within progress total low (high + 1)
            (snd (update_progress progress (fun p => Object_assign p update) s)))
    as Hupdated.
  { exists (Object_assign p update). simpl. split; [| split].
    - rewrite list_lookup_alter, Hp. by case_decide.
    - simpl. by rewrite Hut.
    - simpl. rewrite Huc. simpl. lia. }
  unfold reportProgress.
  apply bind_state_cases; [| intros _; exact Hupdated].
  intros [] s1 [= <-]. destruct onProgress as [notify |]; [| exact Hupdated].
  eapply progress_within_same; [| exact Hupdated].
  unfold bind, read_progress, await_call, bind, emit, ret, throw. simpl.
  by destruct (notify _).
Qed.

Section counters.

Context (E : externals) (progress : nat) (breadth depth : Z).
Context (known : list jsstring) (visited : list UrlWithSummary).
Context (onProgress : option observer).

(** The [try] block of a branch counts at most one more completed query on
    the progress object of its invocation, and leaves its total. *)
Lemma branch_try_counts serpQuery total low high s :
  progress_within progress total low high s ->
  progress_within progress total low (high + 1)
    (snd (branch_try E progress breadth depth known visited onProgress serpQuery s)).
Proof.
  intros Hstart.
  assert (forall s', progresses s' = progresses s ->
                     progress_within progress total low (high + 1) s') as Hsame.
  { intros s' Heq. eapply progress_within_same; [exact Heq |].
    eapply progress_within_weaken; [| exact Hstart]. lia. }
  unfold branch_try.
  apply bind_state_cases;
    [| intros _; apply Hsame, (preserves_await_call same_progresses
                                 same_progresses_store)].
  intros result s1 Hrun1.
  pose proof (preserves_await_call same_progresses same_progresses_store
                (CallSearch (sq_query serpQuery))
                (firecrawl_search E (sq_query serpQuery)) s) as Hs1.
  rewrite Hrun1 in Hs1. simpl in Hs1. unfold same_progresses in Hs1.
  pose proof (preserves_mapM same_progresses _ same_progresses_store
                (newUrl E) (data result)
                (preserves_newUrl same_progresses _ same_progresses_store E) s1)
    as Hs2.
  unfold same_progresses in Hs2.
  apply bind_state_cases; [| intros _; apply Hsame; congruence].
  intros sources s2 Hrun2. rewrite Hrun2 in Hs2. simpl in Hs2.
  pose proof (preserves_processSerpResult same_progresses _ same_progresses_store
                E (sq_query serpQuery) result 3 (ceil_half breadth) s2) as Hs3.
  unfold same_progresses in Hs3.
  apply bind_state_cases; [| intros _; apply Hsame; congruence].
  intros newLearnings s3 Hrun3. rewrite Hrun3 in Hs3. simpl in Hs3.
  destruct Hstart as (p & Hp & Htotal & Hcompleted).
  assert (progresses s3 !! progress = Some p) as Hp3 by congruence.
  destruct (0 <? depth - 1).
  - apply bind_state_cases; [| intros Hno; by destruct (Hno tt)].
    intros [] s4 [= <-].
    apply bind_state_cases; [| intros Hno; by destruct (Hno (progresses s3 !!! progress))].
    intros p' s5 [= <- <-].
    rewrite (list_lookup_total_correct _ _ _ Hp3).
    apply bind_state_cases.
    + intros [] s6 Hrun6. simpl.
      match type of Hrun6 with
      | reportProgress _ _ ?u ?st = _ =>
          pose proof (progress_within_report progress onProgress u total low high
                        st p Hp3 Htotal Hcompleted eq_refl eq_refl) as Hreport
      end.
      by rewrite Hrun6 in Hreport.
    + intros _.
      eapply progress_within_report;
        [exact Hp3 | exact Htotal | exact Hcompleted | reflexivity | reflexivity].
  - apply bind_state_cases; [| intros Hno; by destruct (Hno (progresses s3 !!! progress))].
    intros p' s5 [= <- <-].
    rewrite (list_lookup_total_correct _ _ _ Hp3).
    apply bind_state_cases.
    + intros [] s6 Hrun6. simpl.
      match type of Hrun6 with
      | reportProgress _ _ ?u ?st = _ =>
          pose proof (progress_within_report progress onProgress u total low high
                        st p Hp3 Htotal Hcompleted eq_refl eq_refl) as Hreport
      end.
      by rewrite Hrun6 in Hreport.
    + intros _.
      eapply progress_within_report;
        [exact Hp3 | exact Htotal | exact Hcompleted | reflexivity | reflexivity].
Qed.

Context (recurse : jsstring -> Z -> Z -> list jsstring -> list UrlWithSummary
                   -> option observer -> M ResearchResult).
Context (recurse_frame : forall n query breadth' depth' known' visited',
            preserves (frame n)
              (recurse query breadth' depth' known' visited' onProgress)).

(** A branch counts at most one more completed query: the recursive call it
    may return works on a progress object of its own. *)
Lemma branch_counts serpQuery total low high s :
  progress_within progress total low high s ->
  progress_within progress total low (high + 1)
    (snd (branch E recurse progress breadth depth known visited onProgress
            serpQuery s)).
Proof.
  intros Hstart. unfold branch.
  pose proof (branch_try_counts serpQuery total low high s Hstart) as Htry.
  assert (progress_within progress total low (high + 1)
            (snd (try_catch
                    (branch_try E progress breadth depth known visited onProgress
                       serpQuery)
                    (branch_catch serpQuery) s))) as Hcaught.
  { unfold try_catch.
    destruct (branch_try E progress breadth depth known visited onProgress
                serpQuery s) as [[c | e | ] s1]; [done | | done].
    eapply progress_within_same; [| exact Htry].
    apply (preserves_branch_catch same_progresses _ same_progresses_store). }
  apply bind_state_cases; [| intros _; exact Hcaught].
  intros c s1 Hrun. rewrite Hrun in Hcaught. simpl in Hcaught.
  destruct c as [r | query breadth' depth' known' visited']; [exact Hcaught |].
  destruct Hcaught as (p & Hp & Hrest).
  destruct (recurse_frame (S progress) query breadth' depth' known' visited' s1)
    as [_ Hkept]; [by eapply lookup_lt_Some |].
  exists p. split; [| exact Hrest]. rewrite Hkept; [exact Hp | lia].
Qed.

(** The branches of an invocation count at most one completed query each. *)
Lemma fan_out_counts serpQueries :
  forall total low high s,
    progress_within progress total low high s ->
    progress_within progress total low (high + Z.of_nat (length serpQueries))
      (snd (fan_out E recurse progress breadth depth known visited onProgress
              serpQueries s)).
Proof.
  unfold fan_out.
  induction serpQueries as [| serpQuery serpQueries IH];
    intros total low high s Hstart; simpl mapM.
  - simpl. eapply progress_within_weaken; [| exact Hstart]. lia.
  - pose proof (branch_counts serpQuery total low high s Hstart) as Hbranch.
    apply bind_state_cases.
    + intros r s1 Hrun. rewrite Hrun in Hbranch. simpl in Hbranch.
      specialize (IH total low (high + 1) s1 Hbranch).
      apply bind_state_cases.
      * intros rs s2 Hrun2. rewrite Hrun2 in IH. simpl in IH. simpl.
        eapply progress_within_weaken; [| exact IH].
        simpl length. lia.
      * intros _. eapply progress_within_weaken; [| exact IH].
        simpl length. lia.
    + intros _. eapply progress_within_weaken; [| exact Hbranch].
      simpl length. lia.
Qed.

End counters.

(** X12: the progress object of an invocation never reports more completed
    queries than queries.  When an invocation of [deepResearch] ends, however
    it ends, its own progress object has [0 <= completedQueries <=
    totalQueries]: the total is the number of queries kept, each branch adds
    at most one to the completed ones (none when it fails before its report),
    and the recursive calls count on objects of their own. *)
Theorem progress_never_overshoots E fuel query breadth depth known visited
    onProgress s :
  exists p,
    progresses (snd (deepResearch E (S fuel) query breadth depth known visited
                       onProgress s)) !! length (progresses s) = Some p
    /\ 0 <= completedQueries p <= totalQueries p.
Proof.
  rewrite deepResearch_after_new_progress.
  set (p0 := {| currentDepth := depth; totalDepth := depth;
                currentBreadth := breadth; totalBreadth := breadth;
                currentQuery := None; totalQueries := 0; completedQueries := 0 |}).
  set (s0 := snd (new_progress p0 s)).
  assert (progresses s0 !! length (progresses s) = Some p0) as Hp0
    by (simpl; by apply list_lookup_middle).
  assert (forall total high s',
             0 <= high <= total ->
             progress_within (length (progresses s)) total 0 high s' ->
             exists p, progresses s' !! length (progresses s) = Some p
                       /\ 0 <= completedQueries p <= totalQueries p) as Hdone.
  { intros total high s' Hhigh (p & Hp & Ht & Hc). exists p. split; [done | lia]. }
  apply (bind_state_cases _ _ s0
           (fun s' => exists p, progresses s' !! length (progresses s) = Some p
                                /\ 0 <= completedQueries p <= totalQueries p)).
  - intros serpQueries s1 Hrun1.
    pose proof (preserves_generateSerpQueries same_progresses _
                  same_progresses_store E query breadth known s0) as Hs1.
    rewrite Hrun1 in Hs1. unfold same_progresses in Hs1. simpl in Hs1.
    assert (progresses s1 !! length (progresses s) = Some p0) as Hp1
      by (rewrite Hs1; exact Hp0).
    assert (progress_within (length (progresses s))
              (Z.of_nat (length serpQueries)) 0 0
              (snd (reportProgress (length (progresses s)) onProgress
                      {| set_currentDepth := None;
                         set_currentBreadth := None;
                         set_currentQuery := Some (sq_query <$> head serpQueries);
                         set_totalQueries := Some (Z.of_nat (length serpQueries));
                         set_completedQueries := None |} s1))) as Hreported.
    { assert (progress_within (length (progresses s))
                (Z.of_nat (length serpQueries)) 0 0
                (snd (update_progress (length (progresses s))
                        (fun p => Object_assign p
                           {| set_currentDepth := None;
                              set_currentBreadth := None;
                              set_currentQuery := Some (sq_query <$> head serpQueries);
                              set_totalQueries := Some (Z.of_nat (length serpQueries));
                              set_completedQueries := None |}) s1))) as Hupdated.
      { eexists. simpl. split; [| split].
        - rewrite list_lookup_alter, Hp1. case_decide; [reflexivity | done].
        - reflexivity.
        - simpl. lia. }
      unfold reportProgress.
      apply bind_state_cases; [| intros _; exact Hupdated].
      intros [] s2 [= <-]. destruct onProgress as [notify |]; [| exact Hupdated].
      eapply progress_within_same; [| exact Hupdated].
      unfold bind, read_progress, await_call, bind, emit, ret, throw. simpl.
      by destruct (notify _). }
    apply bind_state_cases.
    + intros [] s2 Hrun2. rewrite Hrun2 in Hreported. simpl in Hreported.
      pose proof (fan_out_counts E (length (progresses s)) breadth depth known
                    visited onProgress (deepResearch E fuel)
                    (fun n query' breadth' depth' known' visited' =>
                       frame_deepResearch E n fuel query' breadth' depth' known'
                         visited' onProgress)
                    serpQueries _ 0 0 s2 Hreported) as Hfan.
      apply bind_state_cases.
      * intros results s3 Hrun3. rewrite Hrun3 in Hfan. simpl in Hfan. simpl.
        eapply Hdone; [| exact Hfan]. lia.
      * intros _. eapply Hdone; [| exact Hfan]. lia.
    + intros _. eapply Hdone; [| exact Hreported]. lia.
  - intros _.
    pose proof (preserves_generateSerpQueries same_progresses _
                  same_progresses_store E query breadth known s0) as Hs1.
    unfold same_progresses in Hs1.
    exists p0. rewrite Hs1. split; [exact Hp0 | simpl; lia].
Qed.

(** ** The order of an aggregate *)

Lemma Set_spread_from_sublist {A} (same : A -> A -> bool) (seen xs : list A) :
  sublist (Set_spread_from same seen xs) xs.
Proof.
  revert seen. induction xs as [| x xs IH]; intros seen; simpl; [constructor |].
  destruct (existsb (same x) seen).
  - apply sublist_cons, IH.
  - apply sublist_skip, IH.
Qed.

Lemma Set_spread_from_app {A} (same : A -> A -> bool) (seen xs ys : list A) :
  exists rest,
    Set_spread_from same seen (xs ++ ys) = Set_spread_from same seen xs ++ rest
    /\ sublist rest ys.
Proof.
  revert seen. induction xs as [| x xs IH]; intros seen; simpl.
  - eexists. split; [reflexivity | apply Set_spread_from_sublist].
  - destruct (existsb (same x) seen).
    + apply IH.
    + destruct (IH (x :: seen)) as (rest & -> & Hrest). by exists rest.
Qed.

(** X13: the aggregate keeps the order of discovery.  The learnings (and the
    sources) of an aggregate are taken from the branches' results in the
    order of the branches, each kept where it first occurs; and what the
    earlier branches contribute stays in front, unchanged, whatever the later
    branches return: the later ones only append. *)
Theorem aggregate_keeps_order before after :
  sublist (learnings (aggregate (before ++ after)))
    ((before ++ after) ≫= learnings)
  /\ sublist (visitedUrls (aggregate (before ++ after)))
       ((before ++ after) ≫= visitedUrls)
  /\ (exists rest,
        learnings (aggregate (before ++ after))
        = learnings (aggregate before) ++ rest
        /\ sublist rest (after ≫= learnings))
  /\ (exists rest,
        visitedUrls (aggregate (before ++ after))
        = visitedUrls (aggregate before) ++ rest
        /\ sublist rest (after ≫= visitedUrls)).
Proof.
  unfold aggregate, Set_spread. simpl. rewrite !bind_app.
  split; [apply Set_spread_from_sublist |].
  split; [apply Set_spread_from_sublist |].
  split; apply Set_spread_from_app.
Qed.

(** ** [trimPrompt] makes progress *)

Lemma trimPrompt_fuel_length E contextSize fuel prompt r :
  splitter_no_growth E ->
  trimPrompt_fuel E fuel prompt contextSize = Some (Fulfilled r) ->
  (length r <= length prompt)%nat.
Proof.
  intros Hsplit Hrun.
  destruct (trimPrompt_fuel_ends E
              (fun a b : jsstring => (length a <= length b)%nat) contextSize)
    with (fuel := fuel) (prompt := prompt) (out := Fulfilled r)
    as (at_hand & Hreach & Hends);
    [by intros ? | by intros ? ? ? ? ?; lia | | done |].
  { intros p next Hnext. apply (trimPrompt_next_shorter E _ _ _ Hsplit) in Hnext. lia. }
  apply ends_at_length in Hends. lia.
Qed.

(** X14: a text [trimPrompt] returns is never longer than its input, and it
    is strictly shorter whenever the input is over budget and longer than
    140 code units: an over-budget text comes back unchanged only if it is
    within the floor.  The splitter's first chunk is taken to be no longer
    than the text it is given. *)
Theorem trimPrompt_shortens E prompt contextSize r :
  splitter_no_growth E ->
  trimPrompt E prompt contextSize = Some (Fulfilled r) ->
  (length r <= length prompt)%nat
  /\ (forall tokens,
        encode E prompt = Fulfilled tokens ->
        contextSize < Z.of_nat (length tokens) ->
        (Z.to_nat MinChunkSize < length prompt)%nat ->
        (length r < length prompt)%nat).
Proof.
  intros Hsplit Hrun. split; [by eapply trimPrompt_fuel_length |].
  intros tokens Hencode Hover Hlong. unfold trimPrompt in Hrun.
  rewrite trimPrompt_fuel_unfold in Hrun.
  destruct (trimPrompt_next E prompt contextSize) as [next |] eqn:Hnext.
  - apply (trimPrompt_fuel_length E contextSize _ _ _ Hsplit) in Hrun.
    apply (trimPrompt_next_shorter E _ _ _ Hsplit) in Hnext. lia.
  - injection Hrun as Hbase. unfold trimPrompt_base in Hbase.
    destruct prompt as [| c prompt]; [simpl in Hlong; lia |].
    change (falsy (c :: prompt)) with false in Hbase. cbv iota in Hbase.
    rewrite Hencode in Hbase.
    destruct (Z.leb_spec (Z.of_nat (length tokens)) contextSize); [lia |].
    injection Hbase as <-.
    rewrite slice0_length by done. unfold MinChunkSize in *. lia.
Qed.

Lemma trimPrompt_shortens_witness :
  (length (replicate 140 97%N) < length (replicate 200 97%N))%nat.
Proof.
  destruct (trimPrompt_shortens Demo.world (replicate 200 97%N) 10
              (replicate 140 97%N)) as [_ Hshorter].
  - exact Demo_splitter_no_growth.
  - vm_compute. reflexivity.
  - apply (Hshorter (replicate 200 97%N)).
    + vm_compute. reflexivity.
    + vm_compute. reflexivity.
    + vm_compute. lia.
Defined.
